(** * Task manager front end (App component) over a hosted table and bucket

    A shallow embedding of the React component [App] and of the services it
    talks to.  The component's handlers ([init], [uploadFile], [handleImage],
    [handleVideo], [createTask], [fetchTasks], [updateTask], [deleteTask])
    and its form are translated one by one into a small state, exception and
    trace monad: a handler takes the world to an outcome, the list of the
    requests and console messages it produced, and a new world.

    The hosted services are not part of the repository.  They are modelled
    after the behaviour the client library relies on: a table whose [id]
    column is an identity key, read with [ORDER BY id DESC], updated and
    deleted by equality on [id]; an object store made of buckets; a clock.
    Every request can be rejected or can crash, following an arbitrary fault
    schedule carried by the world, so the statements below range over all
    behaviours of the network. *)

From Stdlib Require Import ZArith Lia.
From stdpp Require Import gmap strings list pretty sorting.

Open Scope Z_scope.

(** ** Data model *)

(** [interface Task]. *)
Module Task.
Record t := mk {
  id : Z;
  title : string;
  description : string;
  image_url : option string;
  video_url : option string
}.
End Task.

(** The object literal handed to [insert] in [createTask]: a row without an
    id, which the table assigns. *)
Module Row.
Record t := mk {
  title : string;
  description : string;
  image_url : option string;
  video_url : option string
}.
End Row.

(** The [newTask] form state, [{ title, description }]. *)
Module NewTask.
Record t := mk { title : string; description : string }.
End NewTask.

(** A browser [File]: only its name and content matter here. *)
Record File := mkFile { name : string; content : list Byte.byte }.

(** The five [useState] cells of [App]. *)
Record App := mkApp {
  tasks : list Task.t;
  newTask : NewTask.t;
  newDescription : string;
  taskImage : option File;
  taskVideo : option File
}.

(** The part of the page the component does not control: the title and
    description fields are controlled inputs (their value is the state), the
    two [<input type="file">] elements keep their own [FileList]. *)
Record Dom := mkDom {
  image_input : list File;
  video_input : list File
}.

(** The hosted services: the rows of the [tasks] table in storage order, the
    identity counter of its [id] column, the storage buckets (bucket name to
    object path to object) and the project URL read from the environment in
    [supabase-client.ts]. *)
Record Remote := mkRemote {
  table : list Task.t;
  next_id : Z;
  buckets : gmap string (gmap string File);
  project_url : string
}.

(** What can go wrong with one request: the service answers with an error
    object, or the call throws. *)
Inductive Fault :=
| Reject (message : string)
| Crash (reason : string).

(** The environment: the clock read by [Date.now()], how much it advances
    before each reading, and the fault (if any) that hits each successive
    request. *)
Record Env := mkEnv {
  clock : N;
  advances : list N;
  faults : list (option Fault)
}.

Record World := mkWorld {
  app : App;
  dom : Dom;
  remote : Remote;
  env : Env
}.

Definition with_app (a : App) (w : World) : World :=
  mkWorld a (dom w) (remote w) (env w).
Definition with_dom (d : Dom) (w : World) : World :=
  mkWorld (app w) d (remote w) (env w).
Definition with_remote (s : Remote) (w : World) : World :=
  mkWorld (app w) (dom w) s (env w).
Definition with_env (e : Env) (w : World) : World :=
  mkWorld (app w) (dom w) (remote w) e.

(** ** Observable events *)

(** The answer to a request as the caller sees it. *)
Inductive Reply (A : Type) :=
| Ok (data : A)
| Err (message : string)
| Exn (reason : string).
Arguments Ok {A} data.
Arguments Err {A} message.
Arguments Exn {A} reason.

Inductive Level := LogLevel | ErrorLevel.

Inductive Event :=
| EvSignIn (reply : Reply unit)
| EvUpload (bucket path : string) (file : File) (upsert : bool) (reply : Reply unit)
| EvGetPublicUrl (bucket path : string) (reply : Reply string)
| EvInsert (rows : list Row.t) (reply : Reply unit)
| EvSelect (reply : Reply (list Task.t))
| EvUpdate (id : Z) (description : string) (reply : Reply unit)
| EvDelete (id : Z) (reply : Reply unit)
| EvConsole (level : Level) (args : list string).

(** ** The monad of the handlers *)

Inductive Outcome (A : Type) :=
| Returned (a : A)
| Threw (reason : string).
Arguments Returned {A} a.
Arguments Threw {A} reason.

Definition M (A : Type) : Type := World -> Outcome A * list Event * World.

Definition ret {A} (a : A) : M A := fun w => (Returned a, [], w).

Definition bind {A B} (m : M A) (k : A -> M B) : M B := fun w =>
  match m w with
  | (Returned a, evs1, w1) =>
      match k a w1 with
      | (r, evs2, w2) => (r, evs1 ++ evs2, w2)
      end
  | (Threw e, evs1, w1) => (Threw e, evs1, w1)
  end.

Notation "'let*' x ':=' m 'in' k" := (bind m (fun x => k))
  (at level 10, x name, m at level 100, k at level 200).
Notation "m ';;' k" := (bind m (fun _ => k))
  (at level 100, k at level 200, right associativity).

(** [try { body } catch (err) { handler err }]. *)
Definition try_catch {A} (body : M A) (handler : string -> M A) : M A := fun w =>
  match body w with
  | (Returned a, evs1, w1) => (Returned a, evs1, w1)
  | (Threw e, evs1, w1) =>
      match handler e w1 with
      | (r, evs2, w2) => (r, evs1 ++ evs2, w2)
      end
  end.

(** A call to an async function whose promise is dropped ([fetchTasks();]):
    the callee runs, a rejection of its promise reaches nobody. *)
Definition floating (m : M unit) : M unit := fun w =>
  match m w with
  | (_, evs, w1) => (Returned tt, evs, w1)
  end.

Definition emit (ev : Event) : M unit := fun w => (Returned tt, [ev], w).

Definition console_log (args : list string) : M unit := emit (EvConsole LogLevel args).
Definition console_error (args : list string) : M unit := emit (EvConsole ErrorLevel args).

Definition get_app : M App := fun w => (Returned (app w), [], w).
Definition modify_app (f : App -> App) : M unit := fun w =>
  (Returned tt, [], with_app (f (app w)) w).

(** The [useState] setters. *)
Definition setTasks (data : list Task.t) : M unit :=
  modify_app (fun a => mkApp data (newTask a) (newDescription a) (taskImage a) (taskVideo a)).
Definition setNewTask (v : NewTask.t) : M unit :=
  modify_app (fun a => mkApp (tasks a) v (newDescription a) (taskImage a) (taskVideo a)).
Definition setNewDescription (v : string) : M unit :=
  modify_app (fun a => mkApp (tasks a) (newTask a) v (taskImage a) (taskVideo a)).
Definition setTaskImage (v : option File) : M unit :=
  modify_app (fun a => mkApp (tasks a) (newTask a) (newDescription a) v (taskVideo a)).
Definition setTaskVideo (v : option File) : M unit :=
  modify_app (fun a => mkApp (tasks a) (newTask a) (newDescription a) (taskImage a) v).

(** [Date.now()]: the clock advances by the next scheduled amount (zero when
    the schedule is exhausted) and is read. *)
Definition Date_now : M N := fun w =>
  let e := env w in
  let t := (clock e + hd 0 (advances e))%N in
  (Returned t, [], with_env (mkEnv t (tl (advances e)) (faults e)) w).

(** One request: the next entry of the fault schedule decides whether the
    request is rejected, crashes, or reaches the service; a rejected or
    crashed request leaves the service as it was.  The caller receives
    [{ data, error }] as a sum. *)
Definition request {A} (serve : Remote -> (A + string) * Remote)
    (ev : Reply A -> Event) : M (A + string) := fun w =>
  let e := env w in
  let w1 := with_env (mkEnv (clock e) (advances e) (tl (faults e))) w in
  match hd None (faults e) with
  | Some (Crash r) => (Threw r, [ev (Exn r)], w1)
  | Some (Reject m) => (Returned (inr m), [ev (Err m)], w1)
  | None =>
      match serve (remote w) with
      | (inl a, s) => (Returned (inl a), [ev (Ok a)], with_remote s w1)
      | (inr m, s) => (Returned (inr m), [ev (Err m)], with_remote s w1)
      end
  end.

(** ** The hosted services *)

(** [ORDER BY id DESC]: insertion of a row into a list already in
    descending order of id, and the ordering of a whole table. *)
Fixpoint insert_desc (t : Task.t) (l : list Task.t) : list Task.t :=
  match l with
  | [] => [t]
  | u :: l' =>
      if Z.leb (Task.id u) (Task.id t) then t :: u :: l'
      else u :: insert_desc t l'
  end.

Definition order_by_id_desc (rows : list Task.t) : list Task.t :=
  foldr insert_desc [] rows.

(** [INSERT]: the identity column gives each new row the next id. *)
Definition insert_row (s : Remote) (r : Row.t) : Remote :=
  mkRemote
    (table s ++ [Task.mk (next_id s) (Row.title r) (Row.description r)
                   (Row.image_url r) (Row.video_url r)])
    (next_id s + 1) (buckets s) (project_url s).

Definition tasks_insert (rows : list Row.t) (s : Remote) : (unit + string) * Remote :=
  (inl tt, foldl insert_row s rows).

(** [SELECT * ... ORDER BY id DESC]. *)
Definition tasks_select (s : Remote) : (list Task.t + string) * Remote :=
  (inl (order_by_id_desc (table s)), s).

(** The patch [{ description: d }] applied to one row. *)
Definition set_description (d : string) (t : Task.t) : Task.t :=
  Task.mk (Task.id t) (Task.title t) d (Task.image_url t) (Task.video_url t).

(** [UPDATE tasks SET description = d WHERE id = i]: a statement that matches
    no row changes nothing and is not an error. *)
Definition tasks_update (d : string) (i : Z) (s : Remote) : (unit + string) * Remote :=
  (inl tt,
   mkRemote
     (map (fun t => if Z.eqb (Task.id t) i then set_description d t else t) (table s))
     (next_id s) (buckets s) (project_url s)).

(** [DELETE FROM tasks WHERE id = i]. *)
Definition tasks_delete (i : Z) (s : Remote) : (unit + string) * Remote :=
  (inl tt,
   mkRemote (filter (fun t => Task.id t <> i) (table s))
     (next_id s) (buckets s) (project_url s)).

(** Storage [upload]: the bucket must exist; an occupied path is an error
    unless the caller asked for [upsert], in which case the object is
    replaced. *)
Definition storage_put (bucket path : string) (file : File) (upsert : bool)
    (s : Remote) : (unit + string) * Remote :=
  match buckets s !! bucket with
  | None => (inr "Bucket not found", s)
  | Some objects =>
      match objects !! path, upsert with
      | Some _, false => (inr "The resource already exists", s)
      | _, _ =>
          (inl tt,
           mkRemote (table s) (next_id s)
             (<[bucket := <[path := file]> objects]> (buckets s)) (project_url s))
      end
  end.

(** Storage [getPublicUrl]: the location is derived from the project URL,
    the bucket and the path. *)
Definition public_url (s : Remote) (bucket path : string) : string :=
  project_url s +:+ "/storage/v1/object/public/" +:+ bucket +:+ "/" +:+ path.

(** ** The client library calls made by the component *)

Definition auth_signInAnonymously : M (unit + string) :=
  request (fun s => (inl tt, s)) EvSignIn.

Definition storage_upload (bucket path : string) (file : File) (upsert : bool)
    : M (unit + string) :=
  request (storage_put bucket path file upsert) (EvUpload bucket path file upsert).

(** The reply of [getPublicUrl] can lack [publicUrl] (the case the component
    defends against); here that is a rejected request. *)
Definition storage_getPublicUrl (bucket path : string) : M (string + string) :=
  request (fun s => (inl (public_url s bucket path), s)) (EvGetPublicUrl bucket path).

Definition from_tasks_insert (rows : list Row.t) : M (unit + string) :=
  request (tasks_insert rows) (EvInsert rows).

Definition from_tasks_select_order_id_desc : M (list Task.t + string) :=
  request tasks_select EvSelect.

Definition from_tasks_update_eq_id (d : string) (i : Z) : M (unit + string) :=
  request (tasks_update d i) (EvUpdate i d).

Definition from_tasks_delete_eq_id (i : Z) : M (unit + string) :=
  request (tasks_delete i) (EvDelete i).

(** ** The component *)

(** The [useEffect] that opens the anonymous session. *)
Definition init : M unit :=
  let* r := auth_signInAnonymously in
  match r with
  | inr message => console_error ["Auth error:"; message]
  | inl _ => console_log ["✅ Anonymous session active"]
  end.

Definition bucket_name : string := "notes-images".

Definition file_path (folder : string) (now : N) (file : File) : string :=
  folder +:+ "/" +:+ pretty now +:+ "-" +:+ name file.

Definition uploadFile (file : File) (folder : string) : M (option string) :=
  try_catch
    (let* now := Date_now in
     let filePath := file_path folder now file in
     let* uploaded := storage_upload bucket_name filePath file true in
     match uploaded with
     | inr message =>
         console_error ["❌ Upload error:"; message] ;; ret None
     | inl _ =>
         let* data := storage_getPublicUrl bucket_name filePath in
         match data with
         | inr _ =>
             console_error ["⚠️ No public URL returned:"] ;; ret None
         | inl publicUrl =>
             if decide (publicUrl = "")
             then console_error ["⚠️ No public URL returned:"] ;; ret None
             else console_log ["✅ Uploaded file URL:"; publicUrl] ;;
                  ret (Some publicUrl)
         end
     end)
    (fun err => console_error ["Unexpected upload error:"; err] ;; ret None).

(** [handleImage] and [handleVideo] receive the [FileList] of their input. *)
Definition handleImage (files : list File) : M unit :=
  match files with
  | f :: _ => setTaskImage (Some f)
  | [] => ret tt
  end.

Definition handleVideo (files : list File) : M unit :=
  match files with
  | f :: _ => setTaskVideo (Some f)
  | [] => ret tt
  end.

Definition fetchTasks : M unit :=
  let* r := from_tasks_select_order_id_desc in
  match r with
  | inr message => console_error ["Read error:"; message]
  | inl data => setTasks data
  end.

Definition upload_if_chosen (chosen : option File) (folder : string) : M (option string) :=
  match chosen with
  | Some file => uploadFile file folder
  | None => ret None
  end.

Definition createTask : M unit :=
  let* st := get_app in
  let* imageUrl := upload_if_chosen (taskImage st) "images" in
  let* videoUrl := upload_if_chosen (taskVideo st) "videos" in
  let* r := from_tasks_insert
              [Row.mk (NewTask.title (newTask st)) (NewTask.description (newTask st))
                 imageUrl videoUrl] in
  match r with
  | inr message => console_error ["❌ Insert error:"; message]
  | inl _ =>
      console_log ["✅ Task added successfully!"] ;;
      setNewTask (NewTask.mk "" "") ;;
      setTaskImage None ;;
      setTaskVideo None ;;
      floating fetchTasks
  end.

Definition updateTask (id : Z) : M unit :=
  let* st := get_app in
  let* r := from_tasks_update_eq_id (newDescription st) id in
  match r with
  | inr message => console_error ["Update error:"; message]
  | inl _ =>
      console_log ["✅ Task updated"] ;;
      setNewDescription "" ;;
      floating fetchTasks
  end.

(** [confirmed] is the answer given to [window.confirm]. *)
Definition deleteTask (confirmed : bool) (id : Z) : M unit :=
  if negb confirmed then ret tt
  else
    let* r := from_tasks_delete_eq_id id in
    match r with
    | inr message => console_error ["Delete error:"; message]
    | inl _ => console_log ["✅ Task deleted"] ;; floating fetchTasks
    end.

(** The [required] attributes of the form: the browser dispatches the submit
    event, and so runs [createTask], only when the four required controls
    have a value. *)
Definition form_valid (w : World) : bool :=
  negb (String.eqb (NewTask.title (newTask (app w))) "")
  && negb (String.eqb (NewTask.description (newTask (app w))) "")
  && negb (bool_decide (image_input (dom w) = []))
  && negb (bool_decide (video_input (dom w) = [])).

Definition form_submit : M unit := fun w =>
  if form_valid w then createTask w else (Returned tt, [], w).

(** ** The session as a whole *)

(** What can happen to the page: the user types, picks files, submits and
    clicks; the change feed fires; another client changes the table. *)
Inductive Action :=
| Mount
| TypeTitle (value : string)
| TypeDescription (value : string)
| EditDescription (value : string)
| ChooseImage (files : list File)
| ChooseVideo (files : list File)
| Submit
| ClickUpdate (id : Z)
| ClickDelete (confirmed : bool) (id : Z)
| ChangeFeed
| ElsewhereInsert (row : Row.t)
| ElsewhereUpdate (description : string) (id : Z)
| ElsewhereDelete (id : Z).

Definition modify_dom (f : Dom -> Dom) : M unit := fun w =>
  (Returned tt, [], with_dom (f (dom w)) w).

Definition elsewhere (serve : Remote -> (unit + string) * Remote) : M unit := fun w =>
  (Returned tt, [], with_remote (serve (remote w)).2 w).

(** Event handlers are called by the page, which drops their promise. *)
Definition perform (a : Action) : M unit :=
  match a with
  | Mount => floating init ;; floating fetchTasks
  | TypeTitle v =>
      let* st := get_app in
      setNewTask (NewTask.mk v (NewTask.description (newTask st)))
  | TypeDescription v =>
      let* st := get_app in
      setNewTask (NewTask.mk (NewTask.title (newTask st)) v)
  | EditDescription v => setNewDescription v
  | ChooseImage files =>
      modify_dom (fun d => mkDom files (video_input d)) ;; handleImage files
  | ChooseVideo files =>
      modify_dom (fun d => mkDom (image_input d) files) ;; handleVideo files
  | Submit => floating form_submit
  | ClickUpdate i => floating (updateTask i)
  | ClickDelete c i => floating (deleteTask c i)
  | ChangeFeed => floating fetchTasks
  | ElsewhereInsert row => elsewhere (tasks_insert [row])
  | ElsewhereUpdate d i => elsewhere (tasks_update d i)
  | ElsewhereDelete i => elsewhere (tasks_delete i)
  end.

Definition run (acts : list Action) (w : World) : World :=
  foldl (fun w a => (perform a w).2) w acts.

(** * Vocabulary of the statements *)

(** ** Tables and views *)

Definition ids (rows : list Task.t) : list Z := map Task.id rows.

(** Strictly descending ids. *)
Definition newer (a b : Task.t) : Prop := Task.id b < Task.id a.

(** The identity column: ids are pairwise distinct and below the counter. *)
Definition remote_wf (s : Remote) : Prop :=
  NoDup (ids (table s)) /\ Forall (fun t => Task.id t < next_id s) (table s).

(** The local view only holds ids the table has handed out. *)
Definition world_wf (w : World) : Prop :=
  remote_wf (remote w)
  /\ Forall (fun t => Task.id t < next_id (remote w)) (tasks (app w)).

(** The rewrite an accepted update applies to each row. *)
Definition patch_description (d : string) (i : Z) (t : Task.t) : Task.t :=
  if Task.id t =? i then set_description d t else t.

(** The stored row made from a submitted one. *)
Definition stored_row (i : Z) (r : Row.t) : Task.t :=
  Task.mk i (Row.title r) (Row.description r) (Row.image_url r) (Row.video_url r).

(** The row [createTask] submits, given the two resolved references. *)
Definition submitted_row (st : App) (imageUrl videoUrl : option string) : Row.t :=
  Row.mk (NewTask.title (newTask st)) (NewTask.description (newTask st))
    imageUrl videoUrl.

(** ** Events *)

Definition is_console (e : Event) : Prop :=
  match e with EvConsole _ _ => True | _ => False end.

Definition is_upload (e : Event) : Prop :=
  match e with EvUpload _ _ _ _ _ => True | _ => False end.

Definition is_select (e : Event) : Prop :=
  match e with EvSelect _ => True | _ => False end.

Definition is_console_error (e : Event) : Prop :=
  match e with EvConsole ErrorLevel _ => True | _ => False end.

Definition is_storage (e : Event) : Prop :=
  match e with
  | EvUpload _ _ _ _ _ | EvGetPublicUrl _ _ _ => True
  | _ => False
  end.

(** The reading [Date.now()] returns when called in [w]. *)
Definition now_of (w : World) : N := (clock (env w) + hd 0 (advances (env w)))%N.

(** Events that concern the object [path] of [bucket]. *)
Definition about_object (bucket path : string) (e : Event) : Prop :=
  match e with
  | EvUpload b p _ _ _ | EvGetPublicUrl b p _ => b = bucket /\ p = path
  | EvConsole _ _ => True
  | _ => False
  end.

(** Events of the upload of [file] into [folder] at time [t]. *)
Definition attachment_event (folder : string) (t : N) (file : File) (e : Event) : Prop :=
  match e with
  | EvUpload b p f u _ =>
      b = bucket_name /\ p = file_path folder t file /\ f = file /\ u = true
  | EvGetPublicUrl b p _ => b = bucket_name /\ p = file_path folder t file
  | EvConsole _ _ => True
  | _ => False
  end.

(** A step of an upload that did not go through: the upload was refused or
    threw, or no public location came back. *)
Definition attachment_failed (e : Event) : Prop :=
  match e with
  | EvUpload _ _ _ _ (Ok _) => False
  | EvUpload _ _ _ _ _ => True
  | EvGetPublicUrl _ _ (Ok u) => u = ""
  | EvGetPublicUrl _ _ _ => True
  | _ => False
  end.

Definition storage_or_console (e : Event) : Prop :=
  match e with
  | EvUpload _ _ _ _ _ | EvGetPublicUrl _ _ _ | EvConsole _ _ => True
  | _ => False
  end.

(** Storage events whose object path lies in [folder]. *)
Definition in_folder (folder : string) (e : Event) : Prop :=
  match e with
  | EvUpload _ p _ _ _ | EvGetPublicUrl _ p _ =>
      String.prefix (folder +:+ "/") p = true
  | _ => False
  end.

(** ** Outcomes of the handlers *)

(** What one run of [fetchTasks] does, by the reply to its request. *)
Definition fetch_result (w : World) (rep : Reply (list Task.t))
    (r : Outcome unit) (rest : list Event) (w' : World) : Prop :=
  match rep with
  | Ok rows =>
      r = Returned tt /\ rest = []
      /\ rows = order_by_id_desc (table (remote w))
      /\ app w' = mkApp rows (newTask (app w)) (newDescription (app w))
                    (taskImage (app w)) (taskVideo (app w))
  | Err m =>
      r = Returned tt
      /\ rest = [EvConsole ErrorLevel ["Read error:"; m]]
      /\ app w' = app w
  | Exn e => r = Threw e /\ rest = [] /\ app w' = app w
  end.

(** What [createTask] does after the uploads, by the reply to the insert;
    [w2] is the world in which the insert is issued. *)
Definition create_result (w w2 : World) (row : Row.t) (rep : Reply unit)
    (r : Outcome unit) (rest : list Event) (w' : World) : Prop :=
  match rep with
  | Ok _ =>
      exists w3 evs3,
        remote w3 = insert_row (remote w2) row
        /\ dom w3 = dom w
        /\ app w3 = mkApp (tasks (app w)) (NewTask.mk "" "")
                      (newDescription (app w)) None None
        /\ floating fetchTasks w3 = (r, evs3, w')
        /\ rest = EvConsole LogLevel ["✅ Task added successfully!"] :: evs3
  | Err m =>
      r = Returned tt
      /\ rest = [EvConsole ErrorLevel ["❌ Insert error:"; m]]
      /\ app w' = app w /\ remote w' = remote w2 /\ dom w' = dom w
  | Exn e =>
      r = Threw e /\ rest = []
      /\ app w' = app w /\ remote w' = remote w2 /\ dom w' = dom w
  end.

(** What [updateTask] does, by the reply to the update. *)
Definition update_result (w : World) (i : Z) (rep : Reply unit)
    (r : Outcome unit) (rest : list Event) (w' : World) : Prop :=
  match rep with
  | Ok _ =>
      exists w3 evs3,
        remote w3 = (tasks_update (newDescription (app w)) i (remote w)).2
        /\ dom w3 = dom w
        /\ app w3 = mkApp (tasks (app w)) (newTask (app w)) ""
                      (taskImage (app w)) (taskVideo (app w))
        /\ floating fetchTasks w3 = (r, evs3, w')
        /\ rest = EvConsole LogLevel ["✅ Task updated"] :: evs3
  | Err m =>
      r = Returned tt
      /\ rest = [EvConsole ErrorLevel ["Update error:"; m]]
      /\ app w' = app w /\ remote w' = remote w /\ dom w' = dom w
  | Exn e =>
      r = Threw e /\ rest = []
      /\ app w' = app w /\ remote w' = remote w /\ dom w' = dom w
  end.

(** What [deleteTask] does once confirmed, by the reply to the delete. *)
Definition delete_result (w : World) (i : Z) (rep : Reply unit)
    (r : Outcome unit) (rest : list Event) (w' : World) : Prop :=
  match rep with
  | Ok _ =>
      exists w3 evs3,
        remote w3 = (tasks_delete i (remote w)).2
        /\ dom w3 = dom w /\ app w3 = app w
        /\ floating fetchTasks w3 = (r, evs3, w')
        /\ rest = EvConsole LogLevel ["✅ Task deleted"] :: evs3
  | Err m =>
      r = Returned tt
      /\ rest = [EvConsole ErrorLevel ["Delete error:"; m]]
      /\ app w' = app w /\ remote w' = remote w /\ dom w' = dom w
  | Exn e =>
      r = Threw e /\ rest = []
      /\ app w' = app w /\ remote w' = remote w /\ dom w' = dom w
  end.

(** ** Sample worlds *)

Definition photo : File := mkFile "cat.png" [].

(** A table with two rows, an empty bucket, a filled-in form with a chosen
    image and no video, and a network without faults. *)
Definition example_world : World :=
  mkWorld
    (mkApp [] (NewTask.mk "Buy milk" "2%") "done" (Some photo) None)
    (mkDom [photo] [])
    (mkRemote
       [Task.mk 1 "Water plants" "daily" None None;
        Task.mk 2 "Call home" "" (Some "https://cdn.example/a.png") None]
       3 {[ bucket_name := ∅ ]} "https://project.example")
    (mkEnv 1000 [5%N] []).

(** The same world behind a network that refuses the next request. *)
Definition offline_world : World :=
  with_env (mkEnv 1000 [] [Some (Reject "Failed to fetch")]) example_world.

(** The page right after loading, before anything was stored. *)
Definition fresh_world : World :=
  mkWorld
    (mkApp [] (NewTask.mk "" "") "" None None)
    (mkDom [] [])
    (mkRemote [] 1 {[ bucket_name := ∅ ]} "https://project.example")
    (mkEnv 1000 [] []).

(** Another client stores five tasks and removes two; the change feed
    refreshes the page; the other client then removes task 5, and before the
    page hears of it the user types "done" in the edit box. *)
Definition stale_view_script : list Action :=
  [ElsewhereInsert (Row.mk "Buy milk" "2%" None None);
   ElsewhereInsert (Row.mk "Call home" "" None None);
   ElsewhereInsert (Row.mk "Pay rent" "" None None);
   ElsewhereInsert (Row.mk "Book train" "" None None);
   ElsewhereInsert (Row.mk "Ship it" "soon" None None);
   ElsewhereDelete 3;
   ElsewhereDelete 4;
   ChangeFeed;
   ElsewhereDelete 5;
   EditDescription "done"].

(** The world that script leads to: the local view is stale, it still shows
    the task of id 5 that is no longer in the table, and the edit box holds
    "done". *)
Definition stale_view_world : World :=
  let t1 := Task.mk 1 "Buy milk" "2%" None None in
  let t2 := Task.mk 2 "Call home" "" None None in
  let t5 := Task.mk 5 "Ship it" "soon" None None in
  mkWorld
    (mkApp [t5; t2; t1] (NewTask.mk "" "") "done" None None)
    (mkDom [] [])
    (mkRemote [t1; t2] 6 {[ bucket_name := ∅ ]} "https://project.example")
    (mkEnv 1000 [] []).

Definition clip : File := mkFile "walk.mp4" [].

(** Two submissions in a row: the first with both files chosen; for the
    second only the two text fields are typed again. *)
Definition two_submits : list Action :=
  [TypeTitle "Buy milk"; TypeDescription "2%";
   ChooseImage [photo]; ChooseVideo [clip]; Submit;
   TypeTitle "Call home"; TypeDescription "tonight"; Submit].

(** A filled-in form with no file chosen, over an empty table. *)
Definition no_files_world : World :=
  mkWorld
    (mkApp [] (NewTask.mk "Buy milk" "2%") "" None None)
    (mkDom [] [])
    (mkRemote [] 1 {[ bucket_name := ∅ ]} "https://project.example")
    (mkEnv 1000 [] []).

(** The statement of C4 as the spec words it: for an id that matches no row,
    a failure is reported, the local view is unchanged and no refresh is
    issued. *)
Definition update_missing_id_claim (w : World) (i : Z) : Prop :=
  i ∉ ids (table (remote w)) ->
  forall r evs w', updateTask i w = (r, evs, w') ->
    (Exists is_console_error evs \/ exists e, r = Threw e)
    /\ tasks (app w') = tasks (app w)
    /\ ~ Exists is_select evs.

(** ** The rendered list *)

(** [task.image_url && <img .../>]: the element is there when the reference
    is neither null nor the empty string. *)
Definition truthy (ref : option string) : option string :=
  match ref with
  | Some u => if decide (u = "") then None else Some u
  | None => None
  end.

(** One [<li>] of the list: its React key, the heading and paragraph, the
    sources of the image and video elements when they are rendered, the value
    shown in the edit box, and what the two buttons do. *)
Module Item.
Record t := mk {
  key : Z;
  h1 : string;
  p : string;
  img : option string;
  video : option string;
  textarea : string;
  onUpdate : Action;
  onDelete : bool -> Action
}.
End Item.

(** [tasks.map((task) => <li key={task.id}> ... </li>)]. *)
Definition render (a : App) : list Item.t :=
  map (fun task =>
         Item.mk (Task.id task) (Task.title task) (Task.description task)
           (truthy (Task.image_url task)) (truthy (Task.video_url task))
           (newDescription a)
           (ClickUpdate (Task.id task))
           (fun confirmed => ClickDelete confirmed (Task.id task)))
      (tasks a).

(** The events of a session, in order. *)
Fixpoint run_events (acts : list Action) (w : World) : list Event :=
  match acts with
  | [] => []
  | a :: acts' => (perform a w).1.2 ++ run_events acts' (perform a w).2
  end.

(** ** Further vocabulary *)

Definition is_insert (e : Event) : Prop :=
  match e with EvInsert _ _ => True | _ => False end.

(** A row keeps its identity: id, title and references. *)
Definition same_identity (t t' : Task.t) : Prop :=
  Task.id t' = Task.id t /\ Task.title t' = Task.title t
  /\ Task.image_url t' = Task.image_url t /\ Task.video_url t' = Task.video_url t.

(** How the table may change over time: the identity counter never goes
    back, and every row is either new (its id was not handed out before) or
    an earlier row with the same identity. *)
Definition evolves (s s' : Remote) : Prop :=
  next_id s <= next_id s'
  /\ forall t', t' ∈ table s' ->
       next_id s <= Task.id t' \/ exists t, t ∈ table s /\ same_identity t t'.

(** How the buckets may change over time: buckets other than the attachment
    bucket are untouched, and no stored object disappears. *)
Definition objects_kept (s s' : Remote) : Prop :=
  forall b objects, buckets s !! b = Some objects ->
    exists objects', buckets s' !! b = Some objects'
      /\ (b <> bucket_name -> objects' = objects)
      /\ (forall q, is_Some (objects !! q) -> is_Some (objects' !! q)).

(** The page after the user typed a new title and description. *)
Definition retyped (title description : string) (w : World) : World :=
  (perform (TypeDescription description) (perform (TypeTitle title) w).2).2.

(** The character that separates the timestamp from the file name. *)
Definition dash : Ascii.ascii :=
  Eval cbv in match "-" with String c _ => c | EmptyString => Ascii.zero end.

(** Strings without a dash, such as the decimal digits of a timestamp. *)
Fixpoint dashless (s : string) : Prop :=
  match s with
  | EmptyString => True
  | String c s' => c <> dash /\ dashless s'
  end.

(** What a handler may do to the store and to the local view: the table
    evolves, the objects are kept, and the view is either untouched or the
    ordered table. *)
Definition handled (w w' : World) : Prop :=
  evolves (remote w) (remote w')
  /\ objects_kept (remote w) (remote w')
  /\ (tasks (app w') = tasks (app w)
      \/ tasks (app w') = order_by_id_desc (table (remote w'))).

(** The object stored at a path of the attachment bucket. *)
Definition stored_at (s : Remote) (path : string) (file : File) : Prop :=
  exists objects,
    buckets s !! bucket_name = Some objects /\ objects !! path = Some file.

(** Actions that put a file in the image input, or in the video input. *)
Definition chooses_image (a : Action) : Prop :=
  match a with ChooseImage (_ :: _) => True | _ => False end.

Definition chooses_video (a : Action) : Prop :=
  match a with ChooseVideo (_ :: _) => True | _ => False end.

(** ** Further sample worlds *)

(** Another picture with the name of [photo]. *)
Definition retake : File := mkFile "cat.png" [Byte.x01].

(** [example_world] behind a network that lets the two storage calls through
    and refuses the insert. *)
Definition insert_refused_world : World :=
  with_env (mkEnv 1000 []
              [None; None; Some (Reject "new row violates row-level security policy")])
    example_world.

(** A fresh page on which the form was filled in and both files chosen. *)
Definition filled_world : World :=
  run [TypeTitle "Buy milk"; TypeDescription "2%";
       ChooseImage [photo]; ChooseVideo [clip]] fresh_world.

(** A session on a fresh page in which no image is ever chosen. *)
Definition no_image_script : list Action :=
  [Mount; TypeTitle "Buy milk"; TypeDescription "2%"; ChooseVideo [clip]; Submit;
   ChooseImage []; Submit].

(** * Properties *)

Ltac upload_cases w :=
  unfold uploadFile, try_catch, bind, Date_now, storage_upload,
    storage_getPublicUrl, request, storage_put, console_error, console_log,
    emit, ret, now_of;
  simpl;
  destruct (faults (env w)) as [|[[?|?]|] [|[[?|?]|] ?]]; simpl;
  destruct (buckets (remote w) !! bucket_name) as [?objs|] eqn:?Hbucket; simpl;
  try match goal with
      | |- context [?o !! ?p] =>
          match type of o with
          | gmap string File => destruct (o !! p) eqn:?Hobj; simpl
          end
      end;
  try case_decide; simpl.

(** ** The ordering computed by the table *)

Section Ordering.

Lemma insert_desc_perm t l : insert_desc t l ≡ₚ t :: l.
Proof.
  induction l as [|u l IH]; simpl; [done|].
  destruct (Task.id u <=? Task.id t); [done|].
  rewrite IH. apply Permutation_swap.
Qed.

Lemma order_by_id_desc_perm rows : order_by_id_desc rows ≡ₚ rows.
Proof.
  induction rows as [|t rows IH]; simpl; [done|].
  rewrite insert_desc_perm. by rewrite IH.
Qed.

Lemma order_by_id_desc_elem t rows : t ∈ order_by_id_desc rows <-> t ∈ rows.
Proof. by rewrite order_by_id_desc_perm. Qed.

Lemma insert_desc_sorted t l :
  Task.id t ∉ ids l ->
  StronglySorted newer l -> StronglySorted newer (insert_desc t l).
Proof.
  induction l as [|u l IH]; simpl; intros Hfresh Hs.
  - repeat constructor.
  - apply StronglySorted_inv in Hs as [Hs Hall].
    apply not_elem_of_cons in Hfresh as [Hne Hfresh].
    destruct (Z.leb_spec (Task.id u) (Task.id t)) as [Hle|Hlt].
    + constructor; [by constructor|].
      assert (newer t u) as Htu by (unfold newer; lia).
      constructor; [done|].
      eapply Forall_impl; [exact Hall|]. unfold newer. intros v Hv. lia.
    + constructor; [by apply IH|].
      rewrite insert_desc_perm. constructor; [done|exact Hall].
Qed.

(** With pairwise distinct ids the result is strictly descending. *)
Lemma order_by_id_desc_sorted rows :
  NoDup (ids rows) -> StronglySorted newer (order_by_id_desc rows).
Proof.
  induction rows as [|t rows IH]; simpl; intros Hnd.
  - constructor.
  - apply NoDup_cons in Hnd as [Hfresh Hnd].
    apply insert_desc_sorted; [|by apply IH].
    unfold ids. by rewrite order_by_id_desc_perm.
Qed.

(** Strongly sorted lists, read at two adjacent positions. *)
Lemma sorted_adjacent (l : list Task.t) i a b :
  StronglySorted newer l ->
  l !! i = Some a -> l !! S i = Some b -> Task.id a > Task.id b.
Proof.
  intros Hs. revert i. induction Hs as [|x l Hs IH Hall]; intros i Ha Hb.
  - by rewrite lookup_nil in Ha.
  - destruct i as [|i]; simpl in *.
    + injection Ha as <-. rewrite Forall_forall in Hall.
      assert (newer x b) as Hn.
      { apply Hall. by eapply list_elem_of_lookup_2. }
      unfold newer in Hn. lia.
    + by eapply IH.
Qed.


(** Rewriting fields other than the id commutes with the ordering. *)
Lemma order_by_id_desc_map (f : Task.t -> Task.t) rows :
  (forall t, Task.id (f t) = Task.id t) ->
  order_by_id_desc (map f rows) = map f (order_by_id_desc rows).
Proof.
  intros Hid. induction rows as [|t rows IH]; simpl; [done|].
  rewrite IH. generalize (order_by_id_desc rows) as l.
  induction l as [|u l IHl]; simpl; [done|].
  rewrite !Hid. destruct (Task.id u <=? Task.id t); simpl; [done|].
  by rewrite IHl.
Qed.

(** Two strictly descending lists with the same rows are the same list:
    the answer of the table does not depend on its storage order. *)
Lemma sorted_perm_unique (l1 l2 : list Task.t) :
  StronglySorted newer l1 -> StronglySorted newer l2 -> l1 ≡ₚ l2 -> l1 = l2.
Proof.
  intros H1. revert l2. induction H1 as [|x l1 H1 IH Hall1]; intros l2 H2 Hp.
  - by apply Permutation_nil_l in Hp.
  - destruct H2 as [|y l2 H2 Hall2].
    + by apply Permutation_nil_r in Hp.
    + assert (x = y) as ->.
      { assert (x ∈ y :: l2) as Hx by (rewrite <- Hp; left).
        assert (y ∈ x :: l1) as Hy by (rewrite Hp; left).
        apply elem_of_cons in Hx as [->|Hx]; [done|].
        apply elem_of_cons in Hy as [->|Hy]; [done|].
        rewrite Forall_forall in Hall1. rewrite Forall_forall in Hall2.
        specialize (Hall1 _ Hy). specialize (Hall2 _ Hx).
        unfold newer in *. lia. }
      f_equal. apply IH; [done|]. by eapply Permutation_cons_inv.
Qed.

Lemma order_by_id_desc_storage_order rows1 rows2 :
  NoDup (ids rows1) -> rows1 ≡ₚ rows2 ->
  order_by_id_desc rows1 = order_by_id_desc rows2.
Proof.
  intros Hnd Hp. apply sorted_perm_unique.
  - by apply order_by_id_desc_sorted.
  - apply order_by_id_desc_sorted. unfold ids in *. by rewrite <- Hp.
  - by rewrite !order_by_id_desc_perm.
Qed.

End Ordering.

(** ** Object paths *)

Section Paths.

Lemma append_cons (x : Ascii.ascii) (a b : string) :
  String x a +:+ b = String x (a +:+ b).
Proof. reflexivity. Qed.

Lemma append_assoc (a b c : string) : a +:+ (b +:+ c) = (a +:+ b) +:+ c.
Proof.
  induction a as [|x a IH]; [done|]. rewrite !append_cons. by rewrite IH.
Qed.

Lemma prefix_append (s x : string) : String.prefix s (s +:+ x) = true.
Proof.
  induction s as [|a s IH].
  - by destruct x.
  - rewrite append_cons. simpl.
    destruct (Ascii.ascii_dec a a); [exact IH|done].
Qed.

(** Every path built for a folder starts with that folder and a slash. *)
Lemma file_path_prefix folder t file :
  String.prefix (folder +:+ "/") (file_path folder t file) = true.
Proof. unfold file_path. rewrite append_assoc. apply prefix_append. Qed.

Lemma file_path_images_not_videos t file :
  String.prefix ("videos" +:+ "/") (file_path "images" t file) = false.
Proof. reflexivity. Qed.

Lemma file_path_videos_not_images t file :
  String.prefix ("images" +:+ "/") (file_path "videos" t file) = false.
Proof. reflexivity. Qed.

End Paths.

(** ** Well-formed stores *)

Arguments order_by_id_desc : simpl never.
Arguments file_path : simpl never.
Arguments public_url : simpl never.

Section Services.

Lemma insert_row_wf s r : remote_wf s -> remote_wf (insert_row s r).
Proof.
  intros [Hnd Hlt]. split; simpl.
  - unfold ids. rewrite map_app. simpl. apply NoDup_app. split; [done|].
    split; [|apply NoDup_singleton].
    intros i Hi Hi'. apply list_elem_of_singleton in Hi'. subst i.
    apply list_elem_of_fmap in Hi as (t & Ht & Hin).
    rewrite Forall_forall in Hlt. specialize (Hlt _ Hin). simpl in *. lia.
  - apply Forall_app. split.
    + eapply Forall_impl; [exact Hlt|]. simpl. intros. lia.
    + constructor; [simpl; lia|constructor].
Qed.

Lemma tasks_update_ids d i s : ids (table (tasks_update d i s).2) = ids (table s).
Proof.
  simpl. unfold ids. rewrite map_map. apply map_ext.
  intros t. by destruct (Task.id t =? i).
Qed.

Lemma tasks_update_wf d i s : remote_wf s -> remote_wf (tasks_update d i s).2.
Proof.
  intros [Hnd Hlt]. split.
  - by rewrite tasks_update_ids.
  - simpl. apply Forall_forall. intros t Ht.
    apply list_elem_of_In, in_map_iff in Ht as (u & <- & Hu).
    apply list_elem_of_In in Hu.
    rewrite Forall_forall in Hlt. specialize (Hlt _ Hu).
    by destruct (Task.id u =? i).
Qed.

Lemma tasks_delete_wf i s : remote_wf s -> remote_wf (tasks_delete i s).2.
Proof.
  intros [Hnd Hlt]. split; simpl.
  - eapply sublist_NoDup; [exact Hnd|].
    apply (fmap_sublist Task.id), sublist_filter.
  - apply Forall_forall. intros t Ht. apply list_elem_of_filter in Ht as [_ Ht].
    rewrite Forall_forall in Hlt. by apply Hlt.
Qed.

End Services.

(** ** Uploading one attachment *)

Lemma public_url_project s1 s2 bucket path :
  project_url s1 = project_url s2 ->
  public_url s1 bucket path = public_url s2 bucket path.
Proof. unfold public_url. by intros ->. Qed.

Section Upload.

Variables (file : File) (folder : string).

(** [uploadFile] always returns, and its first event is the upload of the
    file under [folder/<now>-<name>] in the bucket, with [upsert] set. The
    component state, the table and the other buckets are untouched. *)
Lemma uploadFile_run w :
  exists url rep rest w',
    uploadFile file folder w
      = (Returned url,
         EvUpload bucket_name (file_path folder (now_of w) file) file true rep :: rest,
         w')
    /\ app w' = app w /\ dom w' = dom w
    /\ table (remote w') = table (remote w)
    /\ next_id (remote w') = next_id (remote w)
    /\ project_url (remote w') = project_url (remote w)
    /\ (forall b, b <> bucket_name ->
          buckets (remote w') !! b = buckets (remote w) !! b)
    /\ Forall (fun e => ~ is_upload e
                        /\ about_object bucket_name (file_path folder (now_of w) file) e) rest
    /\ (rep <> Ok tt -> url = None /\ remote w' = remote w)
    /\ (forall u, url = Some u ->
          rep = Ok tt /\ u <> ""
          /\ u = public_url (remote w) bucket_name (file_path folder (now_of w) file)
          /\ In (EvGetPublicUrl bucket_name (file_path folder (now_of w) file) (Ok u)) rest)
    /\ (forall b p rep2, In (EvGetPublicUrl b p rep2) rest ->
          url = match rep2 with
                | Ok u => if decide (u = "") then None else Some u
                | _ => None
                end).
Proof.
  upload_cases w.
  all: do 4 eexists; (split; [reflexivity|]); simpl.
  all: repeat match goal with |- _ /\ _ => split end; try done.
  all: try (intros b p rep2 Hin;
            repeat (destruct Hin as [Hin|Hin];
                    [try discriminate;
                     try (injection Hin as <- <- <-; simpl; try case_decide; done)|]);
            done).
  all: try (intros b Hb; by rewrite lookup_insert_ne).
  all: try (repeat constructor; simpl; tauto).
  all: intros u [= Hu]; subst u; split; [done|]; split; [done|].
  all: split; [by apply public_url_project | by left].
Qed.

(** Overwrite on conflict: when the request reaches the storage service and
    the bucket exists, the upload is accepted and the object at the path is
    the uploaded file afterwards, whatever was stored there before. *)
Lemma uploadFile_upsert w objects :
  hd None (faults (env w)) = None ->
  buckets (remote w) !! bucket_name = Some objects ->
  exists url rest w',
    uploadFile file folder w
      = (Returned url,
         EvUpload bucket_name (file_path folder (now_of w) file) file true (Ok tt) :: rest,
         w')
    /\ buckets (remote w')
       = <[bucket_name := <[file_path folder (now_of w) file := file]> objects]>
           (buckets (remote w)).
Proof.
  intros Hf Hb. upload_cases w; try discriminate.
  all: do 3 eexists; (split; [reflexivity|]); simpl; congruence.
Qed.

End Upload.

(** ** Reading the table *)

Lemma fetchTasks_run w :
  exists r rep rest w',
    fetchTasks w = (r, EvSelect rep :: rest, w')
    /\ remote w' = remote w /\ dom w' = dom w
    /\ fetch_result w rep r rest w'.
Proof.
  unfold fetchTasks, bind, from_tasks_select_order_id_desc, request, tasks_select,
    console_error, setTasks, modify_app, emit.
  destruct (faults (env w)) as [|[[m|e]|] fs]; simpl.
  all: do 4 eexists; (split; [reflexivity|]); simpl; done.
Qed.

(** ** Attachments of a new task *)

Lemma upload_if_chosen_run chosen folder w :
  exists url evs w',
    upload_if_chosen chosen folder w = (Returned url, evs, w')
    /\ app w' = app w /\ dom w' = dom w
    /\ table (remote w') = table (remote w)
    /\ next_id (remote w') = next_id (remote w)
    /\ project_url (remote w') = project_url (remote w)
    /\ (forall b, b <> bucket_name ->
          buckets (remote w') !! b = buckets (remote w) !! b)
    /\ match chosen with
       | None => url = None /\ evs = []
       | Some file => Forall (attachment_event folder (now_of w) file) evs
       end
    /\ (Exists attachment_failed evs -> url = None).
Proof.
  destruct chosen as [file|]; simpl.
  - destruct (uploadFile_run file folder w)
      as (url & rep & rest & w' & Hrun & Happ & Hdom & Htab & Hid & Hurl & Hb
          & Hrest & Hfail & Hok & Hget).
    exists url, (EvUpload bucket_name (file_path folder (now_of w) file) file true rep :: rest), w'.
    repeat match goal with |- _ /\ _ => split end; try done.
    + constructor; [done|].
      eapply Forall_impl; [exact Hrest|]. intros e [Hnu He].
      destruct e; simpl in *; tauto.
    + intros Hex. apply Exists_cons in Hex as [Hex|Hex].
      * apply Hfail. intros ->. done.
      * apply Exists_exists in Hex as (e & Hin & He).
        rewrite Forall_forall in Hrest. destruct (Hrest _ Hin) as [Hnu _].
        destruct e as [| |b p rep2| | | | |]; simpl in He, Hnu; try done.
        apply list_elem_of_In in Hin. rewrite (Hget _ _ _ Hin).
        destruct rep2 as [u| |]; try done. by rewrite decide_True.
  - exists None, [], w. repeat split; try done.
Qed.

Lemma upload_if_chosen_events chosen folder w url evs w' :
  upload_if_chosen chosen folder w = (url, evs, w') -> Forall storage_or_console evs.
Proof.
  destruct (upload_if_chosen_run chosen folder w)
    as (url0 & evs0 & w0 & Hrun & _ & _ & _ & _ & _ & _ & Hevs & _).
  rewrite Hrun. intros [= <- <- <-]. destruct chosen as [file|].
  - eapply Forall_impl; [exact Hevs|]. by intros [].
  - destruct Hevs as [_ ->]. constructor.
Qed.

(** ** Creating a task *)

Lemma createTask_run w :
  exists imageUrl evs1 w1 videoUrl evs2 w2 r rep rest w',
    upload_if_chosen (taskImage (app w)) "images" w = (Returned imageUrl, evs1, w1)
    /\ upload_if_chosen (taskVideo (app w)) "videos" w1 = (Returned videoUrl, evs2, w2)
    /\ createTask w
       = (r,
          evs1 ++ evs2 ++ EvInsert [submitted_row (app w) imageUrl videoUrl] rep :: rest,
          w')
    /\ create_result w w2 (submitted_row (app w) imageUrl videoUrl) rep r rest w'.
Proof.
  destruct (upload_if_chosen_run (taskImage (app w)) "images" w)
    as (imageUrl & evs1 & w1 & Hrun1 & Happ1 & Hdom1 & _).
  destruct (upload_if_chosen_run (taskVideo (app w)) "videos" w1)
    as (videoUrl & evs2 & w2 & Hrun2 & Happ2 & Hdom2 & _).
  exists imageUrl, evs1, w1, videoUrl, evs2, w2.
  unfold createTask, create_result, bind, get_app. rewrite Hrun1, Hrun2.
  generalize (floating fetchTasks) as refresh. intros refresh.
  unfold from_tasks_insert, request, tasks_insert, console_error, console_log,
    emit, setNewTask, setTaskImage, setTaskVideo, modify_app.
  destruct (faults (env w2)) as [|[[m|e]|] fs]; simpl.
  all: try (do 4 eexists; split; [done|]; split; [done|]; split; [reflexivity|];
            simpl; rewrite ?Happ2, ?Happ1, ?Hdom2, ?Hdom1; done).
  all: match goal with |- context [?F ?w3] =>
         is_var F; match type of w3 with World => idtac end;
         destruct (F w3) as [[r evs3] w'] eqn:Hfetch end.
  all: exists r, (Ok tt); do 2 eexists; split; [done|]; split; [done|];
         split; [reflexivity|]; simpl.
  all: do 2 eexists; split; [|split; [|split; [|split; [exact Hfetch|reflexivity]]]];
         simpl; rewrite ?Happ2, ?Happ1, ?Hdom2, ?Hdom1; done.
Qed.

(** ** Updating and deleting a task *)

Lemma updateTask_run i w :
  exists r rep rest w',
    updateTask i w = (r, EvUpdate i (newDescription (app w)) rep :: rest, w')
    /\ update_result w i rep r rest w'
    /\ (hd None (faults (env w)) = None <-> rep = Ok tt).
Proof.
  unfold updateTask, update_result, bind, get_app.
  generalize (floating fetchTasks) as refresh. intros refresh.
  unfold from_tasks_update_eq_id, request, console_error, console_log, emit,
    setNewDescription, modify_app.
  destruct (faults (env w)) as [|[[m|e]|] fs]; simpl.
  all: try (do 4 eexists; split; [reflexivity|]; simpl; split; [done|];
            split; intros; done).
  all: match goal with |- context [?F ?w3] =>
         is_var F; match type of w3 with World => idtac end;
         destruct (F w3) as [[r evs3] w'] eqn:Hfetch end.
  all: exists r, (Ok tt); do 2 eexists; split; [reflexivity|]; simpl.
  all: split; [|done].
  all: do 2 eexists; split; [|split; [|split; [|split; [exact Hfetch|reflexivity]]]];
         done.
Qed.

Lemma deleteTask_run i w :
  exists r rep rest w',
    deleteTask true i w = (r, EvDelete i rep :: rest, w')
    /\ delete_result w i rep r rest w'.
Proof.
  unfold deleteTask, delete_result, bind.
  generalize (floating fetchTasks) as refresh. intros refresh.
  unfold from_tasks_delete_eq_id, request, console_error, console_log, emit.
  simpl. destruct (faults (env w)) as [|[[m|e]|] fs]; simpl.
  all: try (do 4 eexists; split; [reflexivity|]; simpl; done).
  all: match goal with |- context [?F ?w3] =>
         is_var F; match type of w3 with World => idtac end;
         destruct (F w3) as [[r evs3] w'] eqn:Hfetch end.
  all: exists r, (Ok tt); do 2 eexists; split; [reflexivity|]; simpl.
  all: do 2 eexists; split; [|split; [|split; [|split; [exact Hfetch|reflexivity]]]];
         done.
Qed.

Lemma deleteTask_declined i w : deleteTask false i w = (Returned tt, [], w).
Proof. reflexivity. Qed.

(** ** Refresh *)

Lemma fetchTasks_inv w r evs w' :
  fetchTasks w = (r, evs, w') ->
  exists rep rest,
    evs = EvSelect rep :: rest
    /\ remote w' = remote w /\ dom w' = dom w
    /\ fetch_result w rep r rest w'
    /\ (forall rep0, In (EvSelect rep0) evs -> rep0 = rep).
Proof.
  destruct (fetchTasks_run w) as (r0 & rep & rest & w0 & Hrun & Hrem & Hdom & Hres).
  rewrite Hrun. intros [= <- <- <-]. exists rep, rest.
  repeat split; try done.
  intros rep0 [[= ->]|Hin]; [done|].
  destruct rep; simpl in Hres; destruct Hres as (_ & -> & _); simpl in Hin;
    intuition discriminate.
Qed.

Lemma floating_fetchTasks_inv w r evs w' :
  floating fetchTasks w = (r, evs, w') ->
  r = Returned tt
  /\ exists r0, fetchTasks w = (r0, evs, w').
Proof.
  unfold floating. destruct (fetchTasks w) as [[r0 evs0] w0].
  intros [= <- <- <-]. eauto.
Qed.

(** C1: whenever [fetchTasks] gets rows back from the table (its select
    request is answered with data), the local view becomes exactly those
    rows, replacing whatever it held; the rows are the whole table, and any
    two adjacent rows [a], [b] of the view satisfy [a.id > b.id].  Ids are
    pairwise distinct in the table (the key of the [id] column). *)
Theorem fetchTasks_success_descending w r evs w' rows :
  NoDup (ids (table (remote w))) ->
  fetchTasks w = (r, evs, w') ->
  In (EvSelect (Ok rows)) evs ->
  tasks (app w') = rows
  /\ rows ≡ₚ table (remote w)
  /\ (forall i a b, rows !! i = Some a -> rows !! S i = Some b -> Task.id a > Task.id b)
  /\ remote w' = remote w.
Proof.
  intros Hnd Hrun Hin.
  destruct (fetchTasks_inv _ _ _ _ Hrun) as (rep & rest & -> & Hrem & _ & Hres & Huniq).
  rewrite <- (Huniq _ Hin) in Hres. simpl in Hres.
  destruct Hres as (_ & _ & -> & Happ).
  split; [by rewrite Happ|]. split; [apply order_by_id_desc_perm|]. split; [|done].
  intros i a b. apply sorted_adjacent. by apply order_by_id_desc_sorted.
Qed.

(** C7: when the select request of [fetchTasks] does not bring rows back (it
    is answered with an error, or throws), the local view and the rest of the
    component state are what they were. *)
Theorem fetchTasks_failure_keeps_view w r evs w' rep :
  fetchTasks w = (r, evs, w') ->
  In (EvSelect rep) evs ->
  (forall rows, rep <> Ok rows) ->
  tasks (app w') = tasks (app w) /\ app w' = app w /\ remote w' = remote w.
Proof.
  intros Hrun Hin Hfail.
  destruct (fetchTasks_inv _ _ _ _ Hrun) as (rep1 & rest & -> & Hrem & _ & Hres & Huniq).
  rewrite <- (Huniq _ Hin) in Hres.
  destruct rep as [rows| |]; simpl in Hres.
  - by destruct (Hfail rows).
  - destruct Hres as (_ & _ & ->). done.
  - destruct Hres as (_ & _ & ->). done.
Qed.

(** C9: two refreshes that both get rows back, with the table holding the
    same rows at the second as after the first, produce the same sequence and
    leave the same local view. *)
Theorem fetchTasks_twice_same_view wa ra evsa wa' rowsa wb rb evsb wb' rowsb :
  fetchTasks wa = (ra, evsa, wa') ->
  In (EvSelect (Ok rowsa)) evsa ->
  table (remote wb) = table (remote wa') ->
  fetchTasks wb = (rb, evsb, wb') ->
  In (EvSelect (Ok rowsb)) evsb ->
  rowsa = rowsb /\ tasks (app wa') = tasks (app wb').
Proof.
  intros Hruna Hina Htab Hrunb Hinb.
  destruct (fetchTasks_inv _ _ _ _ Hruna) as (repa & resta & -> & Hrema & _ & Hresa & Huniqa).
  destruct (fetchTasks_inv _ _ _ _ Hrunb) as (repb & restb & -> & Hremb & _ & Hresb & Huniqb).
  rewrite <- (Huniqa _ Hina) in Hresa. rewrite <- (Huniqb _ Hinb) in Hresb.
  simpl in Hresa, Hresb.
  destruct Hresa as (_ & _ & -> & Happa). destruct Hresb as (_ & _ & -> & Happb).
  rewrite Happa, Happb, Htab, Hrema. done.
Qed.

(** ** Create *)

Lemma floating_fetchTasks_events w r evs w' :
  floating fetchTasks w = (r, evs, w') ->
  Forall (fun e => is_select e \/ is_console e) evs /\ Exists is_select evs.
Proof.
  intros Hrun. apply floating_fetchTasks_inv in Hrun as (_ & r0 & Hrun).
  destruct (fetchTasks_inv _ _ _ _ Hrun) as (rep & rest & -> & _ & _ & Hres & _).
  split; [|by left].
  constructor; [by left|].
  destruct rep; simpl in Hres; destruct Hres as (_ & -> & _);
    repeat constructor; by right.
Qed.

(** The events of a run of [createTask]: those of the two uploads, then the
    single insert, then what follows it. *)
Lemma createTask_inv w r evs w' :
  createTask w = (r, evs, w') ->
  exists imageUrl evs1 w1 videoUrl evs2 w2 rep rest,
    upload_if_chosen (taskImage (app w)) "images" w = (Returned imageUrl, evs1, w1)
    /\ upload_if_chosen (taskVideo (app w)) "videos" w1 = (Returned videoUrl, evs2, w2)
    /\ evs = evs1 ++ evs2
             ++ EvInsert [submitted_row (app w) imageUrl videoUrl] rep :: rest
    /\ create_result w w2 (submitted_row (app w) imageUrl videoUrl) rep r rest w'
    /\ (forall rows rep0, In (EvInsert rows rep0) evs ->
          rows = [submitted_row (app w) imageUrl videoUrl] /\ rep0 = rep).
Proof.
  destruct (createTask_run w)
    as (imageUrl & evs1 & w1 & videoUrl & evs2 & w2 & r0 & rep & rest & w0
        & Hrun1 & Hrun2 & Hrun & Hres).
  rewrite Hrun. intros [= <- <- <-].
  exists imageUrl, evs1, w1, videoUrl, evs2, w2, rep, rest.
  do 4 (split; [done|]).
  intros rows rep0 Hin. rewrite !in_app_iff in Hin.
  pose proof (upload_if_chosen_events _ _ _ _ _ _ Hrun1) as He1.
  pose proof (upload_if_chosen_events _ _ _ _ _ _ Hrun2) as He2.
  rewrite Forall_forall in He1, He2.
  destruct Hin as [Hin|[Hin|[Hin|Hin]]];
    [ apply list_elem_of_In, He1 in Hin; done
    | apply list_elem_of_In, He2 in Hin; done
    | by injection Hin as <- <-
    | exfalso ].
  destruct rep; simpl in Hres.
  2,3: destruct Hres as (_ & -> & _); simpl in Hin; intuition discriminate.
  destruct Hres as (w3 & evs3 & _ & _ & _ & Hf & ->).
  apply floating_fetchTasks_events in Hf as [Hf _]. rewrite Forall_forall in Hf.
  destruct Hin as [Hin|Hin]; [discriminate|].
  apply list_elem_of_In, Hf in Hin. by destruct Hin.
Qed.


(** ** Update *)

Lemma patch_description_id d i t : Task.id (patch_description d i t) = Task.id t.
Proof. unfold patch_description. by destruct (Task.id t =? i). Qed.

Lemma tasks_update_table d i s :
  table (tasks_update d i s).2 = map (patch_description d i) (table s).
Proof. reflexivity. Qed.

(** An update whose id matches no row leaves every row as it was. *)
Lemma tasks_update_missing d i s :
  i ∉ ids (table s) -> table (tasks_update d i s).2 = table s.
Proof.
  rewrite tasks_update_table. unfold ids.
  induction (table s) as [|t l IH]; simpl; [done|].
  intros [Hne Hl]%not_elem_of_cons. rewrite IH by done.
  unfold patch_description.
  destruct (Z.eqb_spec (Task.id t) i); [congruence|done].
Qed.

Lemma updateTask_inv i w r evs w' :
  updateTask i w = (r, evs, w') ->
  exists rep rest,
    evs = EvUpdate i (newDescription (app w)) rep :: rest
    /\ update_result w i rep r rest w'
    /\ (hd None (faults (env w)) = None <-> rep = Ok tt)
    /\ (forall j d rep0, In (EvUpdate j d rep0) evs -> rep0 = rep).
Proof.
  destruct (updateTask_run i w) as (r0 & rep & rest & w0 & Hrun & Hres & Hf).
  rewrite Hrun. intros [= <- <- <-]. exists rep, rest.
  do 3 (split; [done|]).
  intros j d rep0 [[= _ _ ->]|Hin]; [done|]. exfalso.
  destruct rep; simpl in Hres.
  2,3: destruct Hres as (_ & -> & _); simpl in Hin; intuition discriminate.
  destruct Hres as (w3 & evs3 & _ & _ & _ & Hfl & ->).
  apply floating_fetchTasks_events in Hfl as [Hfl _]. rewrite Forall_forall in Hfl.
  destruct Hin as [Hin|Hin]; [discriminate|].
  apply list_elem_of_In, Hfl in Hin. by destruct Hin.
Qed.

(** C3: when the update of [updateTask i] is accepted and the table holds a
    row [t0] with id [i], the table afterwards is the old one with the
    description of the rows of id [i] replaced by the edited text and nothing
    else changed; a later refresh that gets rows back shows the previous
    sequence with that one replacement, so it holds a row of id [i] with the
    new description and the title, image and video of [t0]. *)
Theorem updateTask_then_refresh i w t0 r evs w' d :
  t0 ∈ table (remote w) ->
  Task.id t0 = i ->
  updateTask i w = (r, evs, w') ->
  In (EvUpdate i d (Ok tt)) evs ->
  d = newDescription (app w)
  /\ table (remote w') = map (patch_description d i) (table (remote w))
  /\ (forall t, Task.id t <> i -> patch_description d i t = t)
  /\ (forall r2 evs2 w'' rows,
        fetchTasks w' = (r2, evs2, w'') -> In (EvSelect (Ok rows)) evs2 ->
        tasks (app w'') = rows
        /\ rows = map (patch_description d i) (order_by_id_desc (table (remote w)))
        /\ exists t, t ∈ rows
             /\ Task.id t = i /\ Task.description t = d
             /\ Task.title t = Task.title t0
             /\ Task.image_url t = Task.image_url t0
             /\ Task.video_url t = Task.video_url t0).
Proof.
  intros Hin0 Hid Hrun Hin.
  destruct (updateTask_inv _ _ _ _ _ Hrun) as (rep & rest & Hevs & Hres & _ & Huniq).
  rewrite <- (Huniq _ _ _ Hin) in Hres.
  assert (d = newDescription (app w)) as Hd.
  { rewrite Hevs in Hin. destruct Hin as [[= <- _]|Hin]; [done|].
    exfalso. simpl in Hres. destruct Hres as (w3 & evs3 & _ & _ & _ & Hfl & ->).
    apply floating_fetchTasks_events in Hfl as [Hfl _]. rewrite Forall_forall in Hfl.
    destruct Hin as [Hin|Hin]; [discriminate|].
    apply list_elem_of_In, Hfl in Hin. by destruct Hin. }
  simpl in Hres. destruct Hres as (w3 & evs3 & Hrem3 & _ & _ & Hfl & _).
  apply floating_fetchTasks_inv in Hfl as (_ & r0 & Hfl).
  destruct (fetchTasks_inv _ _ _ _ Hfl) as (? & ? & _ & Hrem' & _).
  assert (table (remote w') = map (patch_description d i) (table (remote w))) as Htab'.
  { rewrite Hrem', Hrem3, Hd. apply tasks_update_table. }
  split; [done|]. split; [done|]. split.
  { intros t Hne. unfold patch_description.
    destruct (Z.eqb_spec (Task.id t) i); [congruence|done]. }
  intros r2 evs2 w'' rows Hrun' Hin'.
  destruct (fetchTasks_inv _ _ _ _ Hrun') as (rep2 & rest2 & -> & _ & _ & Hres2 & Huniq2).
  rewrite <- (Huniq2 _ Hin') in Hres2. simpl in Hres2.
  destruct Hres2 as (_ & _ & -> & Happ''). split; [by rewrite Happ''|].
  rewrite Htab'. split.
  { apply order_by_id_desc_map. intros t. apply patch_description_id. }
  exists (patch_description d i t0). split.
  { apply order_by_id_desc_elem. apply list_elem_of_In, in_map, list_elem_of_In. done. }
  unfold patch_description. rewrite <- Hid, Z.eqb_refl. done.
Qed.

Lemma stale_view_world_run :
  updateTask 5 stale_view_world
  = (Returned tt,
     [EvUpdate 5 "done" (Ok tt);
      EvConsole LogLevel ["✅ Task updated"];
      EvSelect (Ok [Task.mk 2 "Call home" "" None None;
                    Task.mk 1 "Buy milk" "2%" None None])],
     mkWorld
       (mkApp [Task.mk 2 "Call home" "" None None;
               Task.mk 1 "Buy milk" "2%" None None]
          (NewTask.mk "" "") "" None None)
       (mkDom [] [])
       (remote stale_view_world)
       (mkEnv 1000 [] [])).
Proof. reflexivity. Qed.

(** C4, as stated, fails: in [stale_view_world] the update of the missing id
    5 is answered without error, nothing is logged as a failure, a refresh is
    issued and the local view changes. *)
Lemma update_missing_id_counterexample :
  ~ update_missing_id_claim stale_view_world 5.
Proof.
  intros Hclaim.
  assert (5 ∉ ids (table (remote stale_view_world))) as Hmiss.
  { rewrite list_elem_of_In. simpl. lia. }
  destruct (Hclaim Hmiss _ _ _ stale_view_world_run) as (_ & Hview & _).
  discriminate Hview.
Qed.

(** C4, amended: an update for an id that matches no row leaves the table as
    it was.  When its request reaches the table it is answered without error,
    no update failure is logged, the edit box is cleared and a refresh is
    issued, whose rows (when it gets them) replace the local view.  Only when
    the update request itself is answered with an error or throws is the
    failure logged (or the call rejected), the component state left as it was
    and no refresh issued. *)
Theorem updateTask_missing_id i w r evs w' :
  i ∉ ids (table (remote w)) ->
  updateTask i w = (r, evs, w') ->
  table (remote w') = table (remote w)
  /\ (hd None (faults (env w)) = None ->
        In (EvUpdate i (newDescription (app w)) (Ok tt)) evs
        /\ (forall m, ~ In (EvConsole ErrorLevel ["Update error:"; m]) evs)
        /\ r = Returned tt
        /\ newDescription (app w') = ""
        /\ Exists is_select evs
        /\ (forall rows, In (EvSelect (Ok rows)) evs ->
              tasks (app w') = rows
              /\ rows = order_by_id_desc (table (remote w))))
  /\ (forall rep, In (EvUpdate i (newDescription (app w)) rep) evs ->
        rep <> Ok tt ->
        (Exists is_console_error evs \/ exists e, r = Threw e)
        /\ app w' = app w
        /\ ~ Exists is_select evs).
Proof.
  intros Hmiss Hrun.
  destruct (updateTask_inv _ _ _ _ _ Hrun) as (rep & rest & -> & Hres & Hf & Huniq).
  destruct rep as [[]|m|e]; simpl in Hres.
  - destruct Hres as (w3 & evs3 & Hrem3 & _ & Happ3 & Hfl & ->).
    pose proof (floating_fetchTasks_events _ _ _ _ Hfl) as [Hevs3 Hsel].
    apply floating_fetchTasks_inv in Hfl as (-> & r0 & Hfl).
    destruct (fetchTasks_inv _ _ _ _ Hfl)
      as (rep & rest & -> & Hrem' & _ & Hres & Huniq3).
    assert (table (remote w3) = table (remote w)) as Htab3.
    { rewrite Hrem3. by apply tasks_update_missing. }
    split; [by rewrite Hrem'|]. split.
    + intros _. split; [by left|]. split.
      { intros m [Hin|[Hin|[Hin|Hin]]]; try discriminate.
        destruct rep; simpl in Hres; destruct Hres as (_ & -> & _); simpl in Hin;
          intuition discriminate. }
      split; [done|]. split.
      { destruct rep; simpl in Hres.
        - destruct Hres as (_ & _ & _ & ->). by rewrite Happ3.
        - destruct Hres as (_ & _ & ->). by rewrite Happ3.
        - destruct Hres as (_ & _ & ->). by rewrite Happ3. }
      split; [by right; right; left|].
      intros rows [Hin|[Hin|Hin]]; try discriminate.
      rewrite <- (Huniq3 _ Hin) in Hres. simpl in Hres.
      destruct Hres as (_ & _ & -> & ->). by rewrite Htab3.
    + intros rep0 Hin Hne. by rewrite (Huniq _ _ _ Hin) in Hne.
  - destruct Hres as (-> & -> & Happ & Hrem & _).
    split; [by rewrite Hrem|]. split.
    + intros Hnone. apply Hf in Hnone. discriminate.
    + intros _ _ _. split; [left; right; by left|]. split; [done|].
      intros Hex. apply Exists_cons in Hex as [[]|Hex].
      apply Exists_cons in Hex as [[]|Hex]. by apply Exists_nil in Hex.
  - destruct Hres as (-> & -> & Happ & Hrem & _).
    split; [by rewrite Hrem|]. split.
    + intros Hnone. apply Hf in Hnone. discriminate.
    + intros _ _ _. split; [right; eauto|]. split; [done|].
      intros Hex. apply Exists_cons in Hex as [[]|Hex]. by apply Exists_nil in Hex.
Qed.

(** ** Attachments and the form *)

Lemma upload_if_chosen_frame chosen folder w url evs w' :
  upload_if_chosen chosen folder w = (url, evs, w') ->
  app w' = app w /\ dom w' = dom w
  /\ table (remote w') = table (remote w)
  /\ next_id (remote w') = next_id (remote w)
  /\ (forall b, b <> bucket_name ->
        buckets (remote w') !! b = buckets (remote w) !! b).
Proof.
  destruct (upload_if_chosen_run chosen folder w)
    as (url0 & evs0 & w0 & Hrun & Happ & Hdom & Htab & Hid & _ & Hb & _).
  rewrite Hrun. by intros [= <- <- <-].
Qed.

Lemma create_result_rest w w2 row rep r rest w' :
  create_result w w2 row rep r rest w' ->
  Forall (fun e => ~ is_storage e) rest
  /\ dom w' = dom w
  /\ buckets (remote w') = buckets (remote w2)
  /\ (forall t, t ∈ table (remote w') ->
        t ∈ table (remote w2) \/ t = stored_row (next_id (remote w2)) row).
Proof.
  destruct rep as [[]|m|e]; simpl.
  - intros (w3 & evs3 & Hrem3 & Hdom3 & _ & Hfl & ->).
    pose proof (floating_fetchTasks_events _ _ _ _ Hfl) as [Hevs3 _].
    apply floating_fetchTasks_inv in Hfl as (_ & r0 & Hfl).
    destruct (fetchTasks_inv _ _ _ _ Hfl) as (? & ? & _ & Hrem' & Hdom' & _).
    split; [|split; [congruence|split]].
    + constructor; [by intros []|].
      eapply Forall_impl; [exact Hevs3|]. intros [] [[]|[]] []; done.
    + by rewrite Hrem', Hrem3.
    + intros t. rewrite Hrem', Hrem3. simpl. rewrite elem_of_app.
      intros [Ht|Ht%list_elem_of_singleton]; [by left|by right].
  - intros (_ & -> & _ & -> & ->). repeat split; try done; [|by left].
    constructor; [by intros []|constructor].
  - intros (_ & -> & _ & -> & ->). repeat split; try done; by left.
Qed.

Lemma attachment_event_folder folder t file e :
  attachment_event folder t file e -> is_storage e -> in_folder folder e.
Proof.
  destruct e; simpl; try done.
  - intros (_ & -> & _) _. apply file_path_prefix.
  - intros (_ & ->) _. apply file_path_prefix.
Qed.


(** Without [upsert] an occupied path is a conflict: the request is refused
    and the stored object stays. *)
Lemma storage_put_conflict bucket path file old objects s :
  buckets s !! bucket = Some objects -> objects !! path = Some old ->
  storage_put bucket path file false s = (inr "The resource already exists", s).
Proof. intros Hb Ho. unfold storage_put. by rewrite Hb, Ho. Qed.

(** C8: [uploadFile] sends exactly one upload, to the object
    [folder/<Date.now()>-<file name>], with [upsert] set.  When the request
    reaches a storage service that has the bucket, it is accepted whether or
    not the path was occupied: afterwards the object at that path is the
    uploaded file and the other objects of the bucket are as before. *)
Theorem uploadFile_path_and_upsert file folder w r evs w' :
  uploadFile file folder w = (r, evs, w') ->
  let path := folder +:+ "/" +:+ pretty (now_of w) +:+ "-" +:+ name file in
  (exists rep rest,
      evs = EvUpload "notes-images" path file true rep :: rest
      /\ Forall (fun e => ~ is_upload e) rest)
  /\ (forall objects,
        hd None (faults (env w)) = None ->
        buckets (remote w) !! "notes-images" = Some objects ->
        In (EvUpload "notes-images" path file true (Ok tt)) evs
        /\ exists objects',
             buckets (remote w') !! "notes-images" = Some objects'
             /\ objects' !! path = Some file
             /\ (forall q, q <> path -> objects' !! q = objects !! q)).
Proof.
  intros Hrun path.
  destruct (uploadFile_run file folder w)
    as (url & rep & rest & w0 & Hrun0 & _ & _ & _ & _ & _ & _ & Hrest & _).
  split.
  - rewrite Hrun in Hrun0. injection Hrun0 as -> -> ->.
    exists rep, rest. split; [done|].
    eapply Forall_impl; [exact Hrest|]. by intros e [He _].
  - intros objects Hf Hb.
    destruct (uploadFile_upsert file folder w objects Hf Hb)
      as (url1 & rest1 & w1 & Hrun1 & Hbuckets).
    rewrite Hrun in Hrun1. injection Hrun1 as -> -> ->.
    split; [by left|].
    exists (<[path := file]> objects). rewrite Hbuckets.
    split; [apply lookup_insert_eq|]. split; [apply lookup_insert_eq|].
    intros q Hq. by apply lookup_insert_ne.
Qed.

(** C5: the form submits only when its required fields have a value.  With
    an empty title or description the submission is blocked: [createTask]
    does not run, nothing is sent and nothing changes.  Whenever a submission
    does insert a row, its title and description are not empty, and so is
    every row the table gains. *)
Theorem form_submit_requires_title_and_description w :
  (NewTask.title (newTask (app w)) = "" \/ NewTask.description (newTask (app w)) = "" ->
     form_submit w = (Returned tt, [], w))
  /\ (forall r evs w',
        form_submit w = (r, evs, w') ->
        (forall rows rep row,
            In (EvInsert rows rep) evs -> In row rows ->
            Row.title row <> "" /\ Row.description row <> "")
        /\ (forall t, t ∈ table (remote w') ->
              t ∈ table (remote w)
              \/ (Task.title t <> "" /\ Task.description t <> ""))).
Proof.
  unfold form_submit, form_valid. split.
  - intros [-> | ->]; simpl; [done|]. by rewrite andb_false_r.
  - intros r evs w'.
    destruct (String.eqb_spec (NewTask.title (newTask (app w))) "") as [|Htitle]; simpl.
    { intros [= <- <- <-]. split; [by intros ? ? ? []|by left]. }
    destruct (String.eqb_spec (NewTask.description (newTask (app w))) "") as [|Hdesc]; simpl.
    { intros [= <- <- <-]. split; [by intros ? ? ? []|by left]. }
    destruct (negb _ && negb _).
    2: { intros [= <- <- <-]. split; [by intros ? ? ? []|by left]. }
    intros Hrun.
    destruct (createTask_inv _ _ _ _ Hrun)
      as (imageUrl & evs1 & w1 & videoUrl & evs2 & w2 & rep & rest
          & Hrun1 & Hrun2 & -> & Hres & Huniq).
    apply upload_if_chosen_frame in Hrun1 as (_ & _ & Htab1 & _).
    apply upload_if_chosen_frame in Hrun2 as (_ & _ & Htab2 & _).
    apply create_result_rest in Hres as (_ & _ & _ & Htab).
    split.
    + intros rows rep0 row Hin Hrow.
      destruct (Huniq _ _ Hin) as [-> _].
      destruct Hrow as [<-|[]]. done.
    + intros t Ht. destruct (Htab _ Ht) as [Hold| ->].
      * left. by rewrite <- Htab1, <- Htab2.
      * by right.
Qed.

(** ** Invariance *)

Lemma remote_wf_ext s s' :
  table s' = table s -> next_id s' = next_id s -> remote_wf s -> remote_wf s'.
Proof. unfold remote_wf. by intros -> ->. Qed.

Lemma view_bound_mono (n m : Z) (l : list Task.t) :
  n <= m -> Forall (fun t => Task.id t < n) l -> Forall (fun t => Task.id t < m) l.
Proof. intros Hle Hall. eapply Forall_impl; [exact Hall|]. simpl. intros t Ht. lia. Qed.

Lemma fetchTasks_wf w r evs w' :
  world_wf w -> fetchTasks w = (r, evs, w') -> world_wf w'.
Proof.
  intros [Hrem Hview] Hrun.
  destruct (fetchTasks_inv _ _ _ _ Hrun) as (rep & rest & _ & Hrem' & _ & Hres & _).
  split; rewrite Hrem'; [done|].
  destruct rep; simpl in Hres.
  - destruct Hres as (_ & _ & -> & ->). simpl.
    rewrite order_by_id_desc_perm. apply Hrem.
  - destruct Hres as (_ & _ & ->). done.
  - destruct Hres as (_ & _ & ->). done.
Qed.

Lemma floating_fetchTasks_wf w r evs w' :
  world_wf w -> floating fetchTasks w = (r, evs, w') -> world_wf w'.
Proof.
  intros Hwf Hrun. apply floating_fetchTasks_inv in Hrun as (_ & r0 & Hrun).
  by eapply fetchTasks_wf.
Qed.

Lemma createTask_wf w r evs w' :
  world_wf w -> createTask w = (r, evs, w') -> world_wf w'.
Proof.
  intros [Hrem Hview] Hrun.
  destruct (createTask_inv _ _ _ _ Hrun)
    as (imageUrl & evs1 & w1 & videoUrl & evs2 & w2 & rep & rest
        & Hrun1 & Hrun2 & _ & Hres & _).
  apply upload_if_chosen_frame in Hrun1 as (_ & _ & Htab1 & Hid1 & _).
  apply upload_if_chosen_frame in Hrun2 as (_ & _ & Htab2 & Hid2 & _).
  assert (remote_wf (remote w2)) as Hrem2.
  { eapply remote_wf_ext; [| |exact Hrem]; congruence. }
  destruct rep as [[]|m|e]; simpl in Hres.
  - destruct Hres as (w3 & evs3 & Hrem3 & _ & Happ3 & Hfl & _).
    eapply floating_fetchTasks_wf; [|exact Hfl].
    split; rewrite Hrem3; [by apply insert_row_wf|].
    rewrite Happ3. simpl. eapply view_bound_mono; [|exact Hview]. lia.
  - destruct Hres as (_ & _ & Happ & Hrem' & _).
    split; rewrite Hrem'; [done|]. rewrite Happ, Hid2, Hid1. done.
  - destruct Hres as (_ & _ & Happ & Hrem' & _).
    split; rewrite Hrem'; [done|]. rewrite Happ, Hid2, Hid1. done.
Qed.

Lemma updateTask_wf i w r evs w' :
  world_wf w -> updateTask i w = (r, evs, w') -> world_wf w'.
Proof.
  intros [Hrem Hview] Hrun.
  destruct (updateTask_inv _ _ _ _ _ Hrun) as (rep & rest & _ & Hres & _).
  destruct rep as [[]|m|e]; simpl in Hres.
  - destruct Hres as (w3 & evs3 & Hrem3 & _ & Happ3 & Hfl & _).
    eapply floating_fetchTasks_wf; [|exact Hfl].
    split; rewrite Hrem3; [by apply tasks_update_wf|]. by rewrite Happ3.
  - destruct Hres as (_ & _ & Happ & Hrem' & _). split; rewrite Hrem'; [done|].
    by rewrite Happ.
  - destruct Hres as (_ & _ & Happ & Hrem' & _). split; rewrite Hrem'; [done|].
    by rewrite Happ.
Qed.

Lemma deleteTask_wf c i w r evs w' :
  world_wf w -> deleteTask c i w = (r, evs, w') -> world_wf w'.
Proof.
  intros [Hrem Hview] Hrun. destruct c.
  - destruct (deleteTask_run i w) as (r0 & rep & rest & w0 & Hrun0 & Hres).
    rewrite Hrun in Hrun0. injection Hrun0 as -> -> ->.
    destruct rep as [[]|m|e]; simpl in Hres.
    + destruct Hres as (w3 & evs3 & Hrem3 & _ & Happ3 & Hfl & _).
      eapply floating_fetchTasks_wf; [|exact Hfl].
      split; rewrite Hrem3; [by apply tasks_delete_wf|]. by rewrite Happ3.
    + destruct Hres as (_ & _ & Happ & Hrem' & _). split; rewrite Hrem'; [done|].
      by rewrite Happ.
    + destruct Hres as (_ & _ & Happ & Hrem' & _). split; rewrite Hrem'; [done|].
      by rewrite Happ.
  - rewrite deleteTask_declined in Hrun. by injection Hrun as <- <- <-.
Qed.

Lemma floating_wf (m : M unit) :
  (forall w r evs w', world_wf w -> m w = (r, evs, w') -> world_wf w') ->
  forall w, world_wf w -> world_wf (floating m w).2.
Proof.
  intros Hm w Hwf. unfold floating.
  destruct (m w) as [[r evs] w'] eqn:Hrun. simpl. by eapply Hm.
Qed.

Lemma init_wf w : world_wf w -> world_wf (floating init w).2.
Proof.
  unfold floating, init, bind, auth_signInAnonymously, request, console_error,
    console_log, emit.
  by destruct (faults (env w)) as [|[[m|e]|] fs].
Qed.

(** The well-formedness of the store and of the local view is kept by
    everything that can happen to the page. *)
Lemma perform_wf a w : world_wf w -> world_wf (perform a w).2.
Proof.
  intros Hwf. destruct a; simpl; try exact Hwf.
  - unfold bind. pose proof (init_wf w Hwf) as Hinit.
    destruct (floating init w) as [[[] evs1] w1]; simpl in *.
    + pose proof (floating_wf fetchTasks fetchTasks_wf w1 Hinit) as Hf.
      by destruct (floating fetchTasks w1) as [[r2 evs2] w2].
    + done.
  - by destruct files.
  - by destruct files.
  - apply floating_wf; [|done]. unfold form_submit. intros w0 r evs w' Hwf0.
    destruct (form_valid w0); [by apply createTask_wf|by intros [= <- <- <-]].
  - apply floating_wf; [|done]. intros w0 r evs w'. apply updateTask_wf.
  - apply floating_wf; [|done]. intros w0 r evs w'. apply deleteTask_wf.
  - by apply floating_wf; [apply fetchTasks_wf|].
  - destruct Hwf as [Hrem Hview]. split; simpl; [by apply insert_row_wf|].
    eapply view_bound_mono; [|exact Hview]. lia.
  - destruct Hwf as [Hrem Hview]. split; [by apply tasks_update_wf|done].
  - destruct Hwf as [Hrem Hview]. split; [by apply tasks_delete_wf|done].
Qed.

Lemma run_wf acts w : world_wf w -> world_wf (run acts w).
Proof.
  unfold run. revert w.
  induction acts as [|a acts IH]; intros w Hwf; simpl; [done|].
  apply IH. by apply perform_wf.
Qed.

(** * Concrete runs *)

(** The stale view of [stale_view_world] arises in a session: it is where
    [stale_view_script] leads from a freshly loaded page. *)
Lemma stale_view_world_reachable : run stale_view_script fresh_world = stale_view_world.
Proof. vm_compute. reflexivity. Qed.

Lemma stale_view_world_wf : world_wf stale_view_world.
Proof.
  rewrite <- stale_view_world_reachable. apply run_wf.
  split; [split|]; simpl; constructor.
Qed.

Lemma example_world_wf : world_wf example_world.
Proof.
  split; [split|]; simpl.
  - repeat (apply NoDup_cons; split; [rewrite list_elem_of_In; simpl; lia|]).
    apply NoDup_nil. done.
  - repeat constructor; simpl; lia.
  - constructor.
Qed.

Lemma fetchTasks_success_descending_witness :
  tasks (app (fetchTasks example_world).2)
  = [Task.mk 2 "Call home" "" (Some "https://cdn.example/a.png") None;
     Task.mk 1 "Water plants" "daily" None None].
Proof.
  apply (fetchTasks_success_descending example_world (Returned tt)
           [EvSelect (Ok [Task.mk 2 "Call home" "" (Some "https://cdn.example/a.png") None;
                          Task.mk 1 "Water plants" "daily" None None])]).
  - apply example_world_wf.
  - vm_compute. reflexivity.
  - left. reflexivity.
Defined.


Lemma updateTask_then_refresh_witness :
  table (remote (updateTask 2 example_world).2)
  = map (patch_description "done" 2) (table (remote example_world)).
Proof.
  eapply (updateTask_then_refresh 2 example_world
            (Task.mk 2 "Call home" "" (Some "https://cdn.example/a.png") None)).
  - right. left.
  - reflexivity.
  - vm_compute. reflexivity.
  - left. reflexivity.
Defined.

Lemma updateTask_missing_id_witness :
  table (remote (updateTask 5 stale_view_world).2) = table (remote stale_view_world).
Proof.
  eapply (updateTask_missing_id 5 stale_view_world).
  - rewrite list_elem_of_In. simpl. lia.
  - vm_compute. reflexivity.
Defined.


Lemma fetchTasks_failure_keeps_view_witness :
  tasks (app (fetchTasks offline_world).2) = tasks (app offline_world).
Proof.
  eapply (fetchTasks_failure_keeps_view offline_world).
  - vm_compute. reflexivity.
  - left. reflexivity.
  - discriminate.
Defined.

Lemma uploadFile_path_and_upsert_witness :
  exists rep rest,
    (uploadFile photo "images" example_world).1.2
    = EvUpload "notes-images" "images/1005-cat.png" photo true rep :: rest.
Proof.
  edestruct (uploadFile_path_and_upsert photo "images" example_world)
    as [(rep & rest & Hevs & _) _].
  - vm_compute. reflexivity.
  - exists rep, rest. exact Hevs.
Defined.

Lemma fetchTasks_twice_same_view_witness :
  tasks (app (fetchTasks example_world).2)
  = tasks (app (fetchTasks (fetchTasks example_world).2).2).
Proof.
  eapply (fetchTasks_twice_same_view example_world _ _ _ _ (fetchTasks example_world).2).
  - vm_compute. reflexivity.
  - left. reflexivity.
  - reflexivity.
  - vm_compute. reflexivity.
  - left. reflexivity.
Defined.

(** Creating "Buy milk" / "2%" with no file: the row is stored with null
    references and the refreshed view shows it first. *)
Lemma create_without_files_run :
  (createTask no_files_world).1
  = (Returned tt,
     [EvInsert [Row.mk "Buy milk" "2%" None None] (Ok tt);
      EvConsole LogLevel ["✅ Task added successfully!"];
      EvSelect (Ok [Task.mk 1 "Buy milk" "2%" None None])])
  /\ tasks (app (createTask no_files_world).2)
     = [Task.mk 1 "Buy milk" "2%" None None].
Proof. split; reflexivity. Qed.

(** After a successful submission the chosen files are dropped from the
    state while the two file inputs keep theirs, so the form stays valid: the
    second submission of [two_submits] goes through without any upload and
    its row has null references. *)
Lemma two_submits_run :
  table (remote (run two_submits fresh_world))
  = [Task.mk 1 "Buy milk" "2%"
       (Some "https://project.example/storage/v1/object/public/notes-images/images/1000-cat.png")
       (Some "https://project.example/storage/v1/object/public/notes-images/videos/1000-walk.mp4");
     Task.mk 2 "Call home" "tonight" None None].
Proof. vm_compute. reflexivity. Qed.

(** * Further properties *)

(** ** Deleting *)

Lemma StronglySorted_filter_newer (P : Task.t -> Prop) `{!forall t, Decision (P t)}
    (l : list Task.t) :
  StronglySorted newer l -> StronglySorted newer (filter P l).
Proof.
  induction 1 as [|x l Hs IH Hall]; [constructor|].
  rewrite filter_cons. destruct (decide (P x)); [|done].
  constructor; [done|].
  apply Forall_forall. intros y Hy%list_elem_of_filter.
  rewrite Forall_forall in Hall. apply Hall, Hy.
Qed.

(** Filtering rows commutes with the ordering of the table. *)
Lemma order_by_id_desc_filter (P : Task.t -> Prop) `{!forall t, Decision (P t)} rows :
  NoDup (ids rows) ->
  order_by_id_desc (filter P rows) = filter P (order_by_id_desc rows).
Proof.
  intros Hnd. apply sorted_perm_unique.
  - apply order_by_id_desc_sorted.
    eapply sublist_NoDup; [exact Hnd|]. apply (fmap_sublist Task.id), sublist_filter.
  - apply StronglySorted_filter_newer. by apply order_by_id_desc_sorted.
  - rewrite order_by_id_desc_perm. by rewrite order_by_id_desc_perm.
Qed.

Lemma deleteTask_inv i w r evs w' :
  deleteTask true i w = (r, evs, w') ->
  exists rep rest,
    evs = EvDelete i rep :: rest
    /\ delete_result w i rep r rest w'
    /\ (forall j rep0, In (EvDelete j rep0) evs -> rep0 = rep).
Proof.
  destruct (deleteTask_run i w) as (r0 & rep & rest & w0 & Hrun & Hres).
  rewrite Hrun. intros [= <- <- <-]. exists rep, rest.
  do 2 (split; [done|]).
  intros j rep0 [[= _ ->]|Hin]; [done|]. exfalso.
  destruct rep; simpl in Hres.
  2,3: destruct Hres as (_ & -> & _); simpl in Hin; intuition discriminate.
  destruct Hres as (w3 & evs3 & _ & _ & _ & Hfl & ->).
  apply floating_fetchTasks_events in Hfl as [Hfl _]. rewrite Forall_forall in Hfl.
  destruct Hin as [Hin|Hin]; [discriminate|].
  apply list_elem_of_In, Hfl in Hin. by destruct Hin.
Qed.

(** X1: when the delete of a confirmed [deleteTask i] is accepted, the table
    loses exactly the rows of id [i] and the buckets are untouched (the
    attachments of the deleted task stay in storage); a later refresh that
    gets rows back shows the previous sequence without the rows of id [i]. *)
Theorem deleteTask_then_refresh i w r evs w' :
  NoDup (ids (table (remote w))) ->
  deleteTask true i w = (r, evs, w') ->
  In (EvDelete i (Ok tt)) evs ->
  table (remote w') = filter (fun t => Task.id t <> i) (table (remote w))
  /\ buckets (remote w') = buckets (remote w)
  /\ (forall r2 evs2 w'' rows,
        fetchTasks w' = (r2, evs2, w'') -> In (EvSelect (Ok rows)) evs2 ->
        tasks (app w'') = rows
        /\ rows = filter (fun t => Task.id t <> i) (order_by_id_desc (table (remote w)))
        /\ i ∉ ids rows).
Proof.
  intros Hnd Hrun Hin.
  destruct (deleteTask_inv _ _ _ _ _ Hrun) as (rep & rest & Hevs & Hres & Huniq).
  rewrite <- (Huniq _ _ Hin) in Hres. simpl in Hres.
  destruct Hres as (w3 & evs3 & Hrem3 & _ & _ & Hfl & _).
  apply floating_fetchTasks_inv in Hfl as (_ & r0 & Hfl).
  destruct (fetchTasks_inv _ _ _ _ Hfl) as (? & ? & _ & Hrem' & _).
  assert (table (remote w') = filter (fun t => Task.id t <> i) (table (remote w))) as Htab.
  { by rewrite Hrem', Hrem3. }
  split; [done|]. split; [by rewrite Hrem', Hrem3|].
  intros r2 evs2 w'' rows Hrun' Hin'.
  destruct (fetchTasks_inv _ _ _ _ Hrun') as (rep2 & rest2 & -> & _ & _ & Hres2 & Huniq2).
  rewrite <- (Huniq2 _ Hin') in Hres2. simpl in Hres2.
  destruct Hres2 as (_ & _ & -> & Happ''). split; [by rewrite Happ''|].
  rewrite Htab. split; [by apply order_by_id_desc_filter|].
  unfold ids. intros (t & Hid & Ht)%list_elem_of_fmap.
  apply order_by_id_desc_elem, list_elem_of_filter in Ht as [Hne _]. by apply Hne.
Qed.

(** X2: a [deleteTask] that is declined at the confirmation prompt sends
    nothing; one whose request is refused or throws logs the refusal; in both
    cases the component state and the store are what they were and no
    refresh is issued. *)
Theorem deleteTask_without_effect c i w r evs w' :
  deleteTask c i w = (r, evs, w') ->
  c = false \/ (exists rep, In (EvDelete i rep) evs /\ rep <> Ok tt) ->
  app w' = app w /\ remote w' = remote w
  /\ ~ Exists is_select evs
  /\ (c = false -> evs = [])
  /\ (forall m, In (EvDelete i (Err m)) evs ->
        In (EvConsole ErrorLevel ["Delete error:"; m]) evs).
Proof.
  intros Hrun Hcase. destruct c.
  - destruct Hcase as [|(rep0 & Hin & Hne)]; [done|].
    destruct (deleteTask_inv _ _ _ _ _ Hrun) as (rep & rest & -> & Hres & Huniq).
    rewrite (Huniq _ _ Hin) in Hne.
    destruct rep as [[]|m|e]; [done| |]; simpl in Hres.
    + destruct Hres as (_ & -> & Happ & Hrem & _).
      repeat split; try done.
      * intros Hex. apply Exists_cons in Hex as [[]|Hex].
        apply Exists_cons in Hex as [[]|Hex]. by apply Exists_nil in Hex.
      * intros m0 Hin0. pose proof (Huniq _ _ Hin0) as [= ->]. right. by left.
    + destruct Hres as (_ & -> & Happ & Hrem & _).
      repeat split; try done.
      * intros Hex. apply Exists_cons in Hex as [[]|Hex]. by apply Exists_nil in Hex.
      * intros m0 Hin0. by pose proof (Huniq _ _ Hin0).
  - rewrite deleteTask_declined in Hrun. injection Hrun as <- <- <-.
    repeat split; try done. by intros Hex%Exists_nil.
Qed.

(** ** Uploading *)

(** What [uploadFile] leaves in the store and on the clock. *)
Lemma uploadFile_store file folder w :
  exists url rep rest w',
    uploadFile file folder w
      = (Returned url,
         EvUpload bucket_name (file_path folder (now_of w) file) file true rep :: rest,
         w')
    /\ clock (env w') = now_of w
    /\ (rep = Ok tt ->
          exists objects,
            buckets (remote w) !! bucket_name = Some objects
            /\ buckets (remote w')
               = <[bucket_name := <[file_path folder (now_of w) file := file]> objects]>
                   (buckets (remote w)))
    /\ (rep <> Ok tt -> buckets (remote w') = buckets (remote w))
    /\ (hd None (faults (env w)) = None ->
          is_Some (buckets (remote w) !! bucket_name) -> rep = Ok tt).
Proof.
  upload_cases w.
  all: do 4 eexists; (split; [reflexivity|]); simpl.
  all: split; [done|]; split; [|split]; try done.
  all: try (intros _; eexists; split; [reflexivity|done]).
  all: try (intros _ [? [=]]).
Qed.

(** X3: [uploadFile] never throws: whatever the storage calls do, it returns;
    it returns null exactly when it logged an error, and a URL exactly when
    it logged that URL as uploaded.  It touches neither the component state
    nor the table. *)
Theorem uploadFile_always_returns file folder w :
  exists url evs w',
    uploadFile file folder w = (Returned url, evs, w')
    /\ (url = None <-> Exists is_console_error evs)
    /\ (forall u, url = Some u <-> In (EvConsole LogLevel ["✅ Uploaded file URL:"; u]) evs)
    /\ app w' = app w
    /\ table (remote w') = table (remote w).
Proof.
  upload_cases w.
  all: do 3 eexists; (split; [reflexivity|]); simpl.
  all: rewrite ?Exists_cons, ?Exists_nil; simpl.
  all: split; [intuition discriminate|]; split; [|done].
  all: intros u; intuition (try discriminate; congruence).
Qed.

Lemma uploadFile_inv file folder w r evs w' :
  uploadFile file folder w = (r, evs, w') ->
  exists url rep rest,
    r = Returned url
    /\ evs = EvUpload bucket_name (file_path folder (now_of w) file) file true rep :: rest
    /\ Forall (fun e => ~ is_upload e) rest
    /\ project_url (remote w') = project_url (remote w)
    /\ clock (env w') = now_of w
    /\ (forall b, b <> bucket_name -> buckets (remote w') !! b = buckets (remote w) !! b)
    /\ (rep = Ok tt ->
          exists objects,
            buckets (remote w) !! bucket_name = Some objects
            /\ buckets (remote w')
               = <[bucket_name := <[file_path folder (now_of w) file := file]> objects]>
                   (buckets (remote w)))
    /\ (rep <> Ok tt -> buckets (remote w') = buckets (remote w))
    /\ (hd None (faults (env w)) = None ->
          is_Some (buckets (remote w) !! bucket_name) -> rep = Ok tt)
    /\ (forall u, url = Some u ->
          rep = Ok tt /\ u <> ""
          /\ u = public_url (remote w) bucket_name (file_path folder (now_of w) file)).
Proof.
  intros Hrun.
  destruct (uploadFile_run file folder w)
    as (url & rep & rest & w0 & Hrun0 & _ & _ & _ & _ & Hurl & Hb & Hrest & _ & Hok & _).
  destruct (uploadFile_store file folder w)
    as (url1 & rep1 & rest1 & w1 & Hrun1 & Hclock & Hstored & Hkept & Hreach).
  rewrite Hrun in Hrun0, Hrun1. injection Hrun0 as -> -> ->.
  injection Hrun1 as <- <- <- <-.
  exists url, rep, rest. do 2 (split; [done|]).
  split; [eapply Forall_impl; [exact Hrest|]; by intros e [He _]|].
  do 6 (split; [done|]).
  intros u Hu. destruct (Hok u Hu) as (? & ? & ? & _). done.
Qed.

(** X4: when [uploadFile] returns a URL, the bucket holds the uploaded file
    at the path [folder/<Date.now()>-<name>], and the URL is the public
    location of that very path, never the empty string. *)
Theorem uploadFile_returned_url_serves_file file folder w evs w' u :
  uploadFile file folder w = (Returned (Some u), evs, w') ->
  exists objects,
    buckets (remote w') !! "notes-images" = Some objects
    /\ objects !! file_path folder (now_of w) file = Some file
    /\ u = public_url (remote w') "notes-images" (file_path folder (now_of w) file)
    /\ u <> "".
Proof.
  intros Hrun.
  destruct (uploadFile_inv _ _ _ _ _ _ Hrun)
    as (url & rep & rest & [= <-] & _ & _ & Hurl & _ & _ & Hstored & _ & _ & Hok).
  destruct (Hok u eq_refl) as (Hrep & Hne & Hu).
  destruct (Hstored Hrep) as (objects & Hb & Hb').
  exists (<[file_path folder (now_of w) file := file]> objects).
  rewrite Hb'. split; [apply lookup_insert_eq|]. split; [apply lookup_insert_eq|].
  split; [|done]. rewrite Hu. by apply public_url_project.
Qed.

(** X5: two uploads into the same folder of files with the same name, the
    second in the same millisecond as the first, use the same object path:
    the second replaces the object of the first without any error, and hands
    back the same URL, which from then on serves the second file. *)
Theorem uploadFile_same_name_same_time f1 f2 folder w u1 evs1 w1 r2 evs2 w2 :
  name f1 = name f2 ->
  uploadFile f1 folder w = (Returned (Some u1), evs1, w1) ->
  now_of w1 = now_of w ->
  hd None (faults (env w1)) = None ->
  uploadFile f2 folder w1 = (r2, evs2, w2) ->
  In (EvUpload "notes-images" (file_path folder (now_of w) f1) f2 true (Ok tt)) evs2
  /\ (exists objects,
        buckets (remote w2) !! "notes-images" = Some objects
        /\ objects !! file_path folder (now_of w) f1 = Some f2)
  /\ (forall u2, r2 = Returned (Some u2) -> u2 = u1).
Proof.
  intros Hname Hrun1 Hnow Hfault Hrun2.
  destruct (uploadFile_inv _ _ _ _ _ _ Hrun1)
    as (url & rep & rest & [= <-] & _ & _ & Hurl1 & _ & _ & Hstored1 & _ & _ & Hok1).
  destruct (Hok1 u1 eq_refl) as (Hrep1 & _ & Hu1).
  destruct (Hstored1 Hrep1) as (objects & Hb & Hb1).
  destruct (uploadFile_inv _ _ _ _ _ _ Hrun2)
    as (url2 & rep2 & rest2 & -> & -> & _ & _ & _ & _ & Hstored2 & _ & Hreach2 & Hok2).
  assert (file_path folder (now_of w1) f2 = file_path folder (now_of w) f1) as Hpath.
  { unfold file_path. by rewrite Hnow, Hname. }
  rewrite Hpath in *.
  assert (rep2 = Ok tt) as ->.
  { apply Hreach2; [done|]. rewrite Hb1, lookup_insert_eq. eauto. }
  split; [by left|]. split.
  - destruct (Hstored2 eq_refl) as (objects1 & _ & Hb2).
    eexists. rewrite Hb2, lookup_insert_eq. split; [done|]. apply lookup_insert_eq.
  - intros u2 [= ->]. destruct (Hok2 u2 eq_refl) as (_ & _ & ->).
    rewrite Hu1. by apply public_url_project.
Qed.

(** ** Object paths again *)

Lemma pretty_N_char_no_dash (n : N) : pretty_N_char n <> dash.
Proof. unfold pretty_N_char. by repeat case_match. Qed.

Lemma pretty_N_go_dashless (x : N) (s : string) :
  dashless s -> dashless (pretty_N_go x s).
Proof.
  revert s. induction (N.lt_wf_0 x) as [x _ IH]. intros s Hs.
  destruct (decide (0 < x)%N) as [Hpos|Hzero].
  - rewrite pretty_N_go_step by done. apply IH.
    + by apply N.div_lt.
    + split; [apply pretty_N_char_no_dash|done].
  - assert (x = 0%N) as -> by lia. by rewrite pretty_N_go_0.
Qed.

(** The decimal rendering of a timestamp has no dash. *)
Lemma pretty_N_dashless (t : N) : dashless (pretty t).
Proof.
  unfold pretty, pretty_N. destruct (decide (t = 0%N)).
  - repeat split; discriminate.
  - by apply pretty_N_go_dashless.
Qed.

Lemma append_nil_l (s : string) : "" +:+ s = s.
Proof. reflexivity. Qed.

(** Two strings cut at their first dash. *)
Lemma dash_split (a b x y : string) :
  dashless a -> dashless b ->
  a +:+ String dash x = b +:+ String dash y -> a = b /\ x = y.
Proof.
  revert b. induction a as [|c a IH]; intros [|d b] Ha Hb Heq.
  - rewrite !append_nil_l in Heq. by injection Heq as ->.
  - rewrite append_nil_l, (append_cons d b) in Heq. injection Heq as <- _.
    by destruct Hb.
  - rewrite append_nil_l, (append_cons c a) in Heq. injection Heq as -> _.
    by destruct Ha.
  - rewrite (append_cons c a), (append_cons d b) in Heq. injection Heq as -> Heq.
    destruct Ha as [_ Ha], Hb as [_ Hb].
    destruct (IH b Ha Hb Heq) as [-> ->]. done.
Qed.

Lemma file_path_inj folder t1 f1 t2 f2 :
  file_path folder t1 f1 = file_path folder t2 f2 -> t1 = t2 /\ name f1 = name f2.
Proof.
  unfold file_path. intros Heq.
  apply String.app_inj in Heq. apply String.app_inj in Heq.
  change (pretty t1 +:+ String dash (name f1) = pretty t2 +:+ String dash (name f2))
    in Heq.
  apply dash_split in Heq as [Ht Hn]; [|apply pretty_N_dashless..].
  split; [|done]. by apply (inj pretty).
Qed.

(** X6: the upload requests of two calls of [uploadFile] for the same folder
    name the same object path exactly when the two calls read the same
    timestamp and the two files have the same name. *)
Theorem uploadFile_paths_collide_iff f1 f2 folder w1 w2 r1 evs1 w1' r2 evs2 w2'
    b1 p1 g1 u1 rep1 b2 p2 g2 u2 rep2 :
  uploadFile f1 folder w1 = (r1, evs1, w1') ->
  uploadFile f2 folder w2 = (r2, evs2, w2') ->
  In (EvUpload b1 p1 g1 u1 rep1) evs1 ->
  In (EvUpload b2 p2 g2 u2 rep2) evs2 ->
  p1 = p2 <-> now_of w1 = now_of w2 /\ name f1 = name f2.
Proof.
  intros Hrun1 Hrun2 Hin1 Hin2.
  destruct (uploadFile_inv _ _ _ _ _ _ Hrun1) as (? & ? & rest1 & _ & -> & Hrest1 & _).
  destruct (uploadFile_inv _ _ _ _ _ _ Hrun2) as (? & ? & rest2 & _ & -> & Hrest2 & _).
  assert (p1 = file_path folder (now_of w1) f1) as ->.
  { destruct Hin1 as [[= _ <- _ _ _]|Hin1]; [done|].
    rewrite Forall_forall in Hrest1. apply list_elem_of_In, Hrest1 in Hin1. by destruct Hin1. }
  assert (p2 = file_path folder (now_of w2) f2) as ->.
  { destruct Hin2 as [[= _ <- _ _ _]|Hin2]; [done|].
    rewrite Forall_forall in Hrest2. apply list_elem_of_In, Hrest2 in Hin2. by destruct Hin2. }
  split.
  - apply file_path_inj.
  - intros [Ht Hn]. unfold file_path. by rewrite Ht, Hn.
Qed.

(** ** What a session does to the store *)

Lemma evolves_same s s' :
  table s' = table s -> next_id s' = next_id s -> evolves s s'.
Proof.
  intros Htab Hid. split; [lia|]. intros t' Ht'. right. exists t'.
  rewrite <- Htab. by repeat split.
Qed.

Lemma evolves_refl s : evolves s s.
Proof. by apply evolves_same. Qed.

Lemma evolves_trans s1 s2 s3 : evolves s1 s2 -> evolves s2 s3 -> evolves s1 s3.
Proof.
  intros [Hle12 H12] [Hle23 H23]. split; [lia|].
  intros t3 Ht3. destruct (H23 _ Ht3) as [Hnew|(t2 & Ht2 & Hid & Hsame)]; [left; lia|].
  destruct (H12 _ Ht2) as [Hnew|(t1 & Ht1 & Hid1 & Hsame1)].
  - left. lia.
  - right. exists t1. split; [done|]. unfold same_identity in *.
    destruct Hsame as (-> & -> & ->), Hsame1 as (-> & -> & ->). by rewrite Hid, Hid1.
Qed.

Lemma insert_row_evolves s r : evolves s (insert_row s r).
Proof.
  split; simpl; [lia|]. intros t' [Ht'|Ht'%list_elem_of_singleton]%elem_of_app.
  - right. exists t'. by repeat split.
  - left. subst t'. simpl. lia.
Qed.

Lemma tasks_update_evolves d i s : evolves s (tasks_update d i s).2.
Proof.
  split; simpl; [lia|]. intros t' Ht'.
  apply list_elem_of_In, in_map_iff in Ht' as (t & <- & Ht). apply list_elem_of_In in Ht.
  right. exists t. split; [done|]. by destruct (Task.id t =? i).
Qed.

Lemma tasks_delete_evolves i s : evolves s (tasks_delete i s).2.
Proof.
  split; simpl; [lia|]. intros t' [_ Ht']%list_elem_of_filter.
  right. exists t'. by repeat split.
Qed.

Lemma objects_kept_same s s' : buckets s' = buckets s -> objects_kept s s'.
Proof. intros Hb b objects Hlook. exists objects. by rewrite Hb. Qed.

Lemma objects_kept_trans s1 s2 s3 :
  objects_kept s1 s2 -> objects_kept s2 s3 -> objects_kept s1 s3.
Proof.
  intros H12 H23 b objects Hb.
  destruct (H12 _ _ Hb) as (objects2 & Hb2 & Hother2 & Hkept2).
  destruct (H23 _ _ Hb2) as (objects3 & Hb3 & Hother3 & Hkept3).
  exists objects3. split; [done|]. split.
  - intros Hne. by rewrite Hother3, Hother2.
  - intros q Hq. by apply Hkept3, Hkept2.
Qed.

Lemma upload_if_chosen_objects_kept chosen folder w url evs w' :
  upload_if_chosen chosen folder w = (url, evs, w') ->
  objects_kept (remote w) (remote w').
Proof.
  destruct chosen as [file|]; simpl.
  - intros Hrun.
    destruct (uploadFile_inv _ _ _ _ _ _ Hrun)
      as (? & rep & ? & _ & _ & _ & _ & _ & _ & Hstored & Hkept & _).
    destruct rep as [[]|m|e].
    2,3: apply objects_kept_same; by apply Hkept.
    destruct (Hstored eq_refl) as (objects & Hb & Hb').
    intros b objects0 Hlook. rewrite Hb'.
    destruct (decide (b = bucket_name)) as [->|Hne].
    + rewrite lookup_insert_eq. eexists. split; [done|]. split; [done|].
      intros q Hq. rewrite Hb in Hlook. injection Hlook as <-.
      destruct (decide (q = file_path folder (now_of w) file)) as [->|Hq'].
      * rewrite lookup_insert_eq. eauto.
      * by rewrite lookup_insert_ne.
    + rewrite lookup_insert_ne by done. exists objects0. by repeat split.
  - intros [= <- <- <-]. by apply objects_kept_same.
Qed.

Lemma handled_same w w' :
  remote w' = remote w -> tasks (app w') = tasks (app w) -> handled w w'.
Proof.
  intros Hrem Happ. split; [|split].
  - apply evolves_same; by rewrite Hrem.
  - apply objects_kept_same. by rewrite Hrem.
  - by left.
Qed.

Lemma fetchTasks_handled w r evs w' :
  fetchTasks w = (r, evs, w') -> handled w w' /\ dom w' = dom w.
Proof.
  intros Hrun.
  destruct (fetchTasks_inv _ _ _ _ Hrun) as (rep & rest & _ & Hrem & Hdom & Hres & _).
  split; [|done]. split; [|split].
  - apply evolves_same; by rewrite Hrem.
  - apply objects_kept_same. by rewrite Hrem.
  - destruct rep; simpl in Hres.
    + destruct Hres as (_ & _ & -> & ->). right. by rewrite Hrem.
    + destruct Hres as (_ & _ & ->). by left.
    + destruct Hres as (_ & _ & ->). by left.
Qed.

(** A change of the store and of the form state, followed by a refresh. *)
Lemma then_refresh_handled w w3 r evs w' :
  evolves (remote w) (remote w3) ->
  objects_kept (remote w) (remote w3) ->
  tasks (app w3) = tasks (app w) ->
  floating fetchTasks w3 = (r, evs, w') ->
  handled w w' /\ dom w' = dom w3.
Proof.
  intros Hev Hobj Hview Hfl.
  apply floating_fetchTasks_inv in Hfl as (_ & r0 & Hfl).
  apply fetchTasks_handled in Hfl as [(Hev' & Hobj' & Hview') Hdom].
  split; [|done]. split; [|split].
  - by eapply evolves_trans.
  - by eapply objects_kept_trans.
  - destruct Hview' as [Hv | Hv]; rewrite Hv; [by left|by right].
Qed.

Lemma createTask_handled w r evs w' :
  createTask w = (r, evs, w') -> handled w w' /\ dom w' = dom w.
Proof.
  intros Hrun.
  destruct (createTask_inv _ _ _ _ Hrun)
    as (imageUrl & evs1 & w1 & videoUrl & evs2 & w2 & rep & rest
        & Hrun1 & Hrun2 & _ & Hres & _).
  pose proof (upload_if_chosen_objects_kept _ _ _ _ _ _ Hrun1) as Hobj1.
  pose proof (upload_if_chosen_objects_kept _ _ _ _ _ _ Hrun2) as Hobj2.
  apply upload_if_chosen_frame in Hrun1 as (_ & _ & Htab1 & Hid1 & _).
  apply upload_if_chosen_frame in Hrun2 as (_ & _ & Htab2 & Hid2 & _).
  assert (evolves (remote w) (remote w2)) as Hev2.
  { apply evolves_same; congruence. }
  assert (objects_kept (remote w) (remote w2)) as Hobj.
  { by eapply objects_kept_trans. }
  destruct rep as [[]|m|e]; simpl in Hres.
  - destruct Hres as (w3 & evs3 & Hrem3 & Hdom3 & Happ3 & Hfl & _).
    rewrite <- Hdom3. eapply then_refresh_handled; [| | |exact Hfl].
    + rewrite Hrem3. eapply evolves_trans; [exact Hev2|apply insert_row_evolves].
    + eapply objects_kept_trans; [exact Hobj|].
      apply objects_kept_same. by rewrite Hrem3.
    + by rewrite Happ3.
  - destruct Hres as (_ & _ & Happ & Hrem & Hdom). split; [|done].
    split; [by rewrite Hrem|]. split; [by rewrite Hrem|]. left. by rewrite Happ.
  - destruct Hres as (_ & _ & Happ & Hrem & Hdom). split; [|done].
    split; [by rewrite Hrem|]. split; [by rewrite Hrem|]. left. by rewrite Happ.
Qed.

Lemma updateTask_handled i w r evs w' :
  updateTask i w = (r, evs, w') -> handled w w' /\ dom w' = dom w.
Proof.
  intros Hrun.
  destruct (updateTask_inv _ _ _ _ _ Hrun) as (rep & rest & _ & Hres & _).
  destruct rep as [[]|m|e]; simpl in Hres.
  - destruct Hres as (w3 & evs3 & Hrem3 & Hdom3 & Happ3 & Hfl & _).
    rewrite <- Hdom3. eapply then_refresh_handled; [| | |exact Hfl].
    + rewrite Hrem3. apply tasks_update_evolves.
    + apply objects_kept_same. by rewrite Hrem3.
    + by rewrite Happ3.
  - destruct Hres as (_ & _ & Happ & Hrem & Hdom). split; [|done].
    apply handled_same; [done|by rewrite Happ].
  - destruct Hres as (_ & _ & Happ & Hrem & Hdom). split; [|done].
    apply handled_same; [done|by rewrite Happ].
Qed.

Lemma deleteTask_handled c i w r evs w' :
  deleteTask c i w = (r, evs, w') -> handled w w' /\ dom w' = dom w.
Proof.
  intros Hrun. destruct c.
  - destruct (deleteTask_inv _ _ _ _ _ Hrun) as (rep & rest & _ & Hres & _).
    destruct rep as [[]|m|e]; simpl in Hres.
    + destruct Hres as (w3 & evs3 & Hrem3 & Hdom3 & Happ3 & Hfl & _).
      rewrite <- Hdom3. eapply then_refresh_handled; [| | |exact Hfl].
      * rewrite Hrem3. apply tasks_delete_evolves.
      * apply objects_kept_same. by rewrite Hrem3.
      * by rewrite Happ3.
    + destruct Hres as (_ & _ & Happ & Hrem & Hdom). split; [|done].
      apply handled_same; [done|by rewrite Happ].
    + destruct Hres as (_ & _ & Happ & Hrem & Hdom). split; [|done].
      apply handled_same; [done|by rewrite Happ].
  - rewrite deleteTask_declined in Hrun. injection Hrun as <- <- <-.
    split; [|done]. by apply handled_same.
Qed.

Lemma floating_handled (m : M unit) :
  (forall w r evs w', m w = (r, evs, w') -> handled w w' /\ dom w' = dom w) ->
  forall w, handled w (floating m w).2 /\ dom (floating m w).2 = dom w.
Proof.
  intros Hm w. unfold floating.
  destruct (m w) as [[r evs] w'] eqn:Hrun. simpl. by eapply Hm.
Qed.

Lemma init_frame w :
  remote (floating init w).2 = remote w /\ app (floating init w).2 = app w
  /\ dom (floating init w).2 = dom w.
Proof.
  unfold floating, init, bind, auth_signInAnonymously, request, console_error,
    console_log, emit.
  by destruct (faults (env w)) as [|[[m|e]|] fs].
Qed.

Lemma form_submit_handled w r evs w' :
  form_submit w = (r, evs, w') -> handled w w' /\ dom w' = dom w.
Proof.
  unfold form_submit. destruct (form_valid w); [apply createTask_handled|].
  intros [= <- <- <-]. split; [|done]. by apply handled_same.
Qed.

(** Every action of a session is handled in that way. *)
Lemma perform_handled a w : handled w (perform a w).2.
Proof.
  destruct a; simpl; try (by apply handled_same).
  - unfold bind. destruct (init_frame w) as (Hrem & Happ & _).
    destruct (floating init w) as [[[] evs1] w1]; simpl in *.
    + destruct (floating_handled fetchTasks fetchTasks_handled w1)
        as [(Hev & Hobj & Hview) _].
      destruct (floating fetchTasks w1) as [[r2 evs2] w2]; simpl in *.
      rewrite Hrem, Happ in *. by split; [|split].
    + apply handled_same; [done|by rewrite Happ].
  - destruct files; by apply handled_same.
  - destruct files; by apply handled_same.
  - apply floating_handled, form_submit_handled.
  - apply floating_handled. intros ? ? ? ?. apply updateTask_handled.
  - apply floating_handled. intros ? ? ? ?. apply deleteTask_handled.
  - apply floating_handled, fetchTasks_handled.
  - split; [apply insert_row_evolves|]. split; [by apply objects_kept_same|by left].
  - split; [apply tasks_update_evolves|]. split; [by apply objects_kept_same|by left].
  - split; [apply tasks_delete_evolves|]. split; [by apply objects_kept_same|by left].
Qed.

Lemma run_cons a acts w : run (a :: acts) w = run acts (perform a w).2.
Proof. reflexivity. Qed.

(** X7: over any session (typing, choosing files, submitting, updating,
    deleting, change-feed refreshes, changes made elsewhere) the table only
    evolves: the id counter never goes back, and every row present at the end
    either carries an id handed out during the session or is a row that was
    there at the start with the same id, title, image and video reference.
    Nothing ever rewrites a title or a reference, or reuses an id. *)
Theorem session_rows_keep_identity acts w :
  evolves (remote w) (remote (run acts w)).
Proof.
  revert w. induction acts as [|a acts IH]; intros w.
  - apply evolves_refl.
  - rewrite run_cons. eapply evolves_trans; [|apply IH].
    apply perform_handled.
Qed.

(** X8: over any session no stored object is ever removed and no bucket
    other than "notes-images" is ever changed; in particular deleting a task
    leaves its attachments in storage. *)
Theorem session_keeps_objects acts w :
  objects_kept (remote w) (remote (run acts w)).
Proof.
  revert w. induction acts as [|a acts IH]; intros w.
  - by apply objects_kept_same.
  - rewrite run_cons. eapply objects_kept_trans; [|apply IH].
    apply perform_handled.
Qed.

(** ** The rendered list *)

Lemma perform_view_sorted a w :
  world_wf w -> StronglySorted newer (tasks (app w)) ->
  StronglySorted newer (tasks (app (perform a w).2)).
Proof.
  intros Hwf Hs. destruct (perform_handled a w) as (_ & _ & [Hview|Hview]).
  - by rewrite Hview.
  - rewrite Hview. apply order_by_id_desc_sorted.
    apply (perform_wf a w Hwf).
Qed.

Lemma run_view_sorted acts w :
  world_wf w -> StronglySorted newer (tasks (app w)) ->
  StronglySorted newer (tasks (app (run acts w))).
Proof.
  revert w. induction acts as [|a acts IH]; intros w Hwf Hs; [done|].
  rewrite run_cons. apply IH; [by apply perform_wf|by apply perform_view_sorted].
Qed.

Lemma descending_NoDup (l : list Z) :
  StronglySorted (fun a b => b < a) l -> NoDup l.
Proof.
  induction 1 as [|x l Hs IH Hall]; [constructor|].
  constructor; [|done]. intros Hin. rewrite Forall_forall in Hall.
  specialize (Hall _ Hin). lia.
Qed.

(** X9: whatever happens in a session that starts from a well-formed store
    and a descending view, the rendered list has its React keys in strictly
    descending order, hence pairwise distinct, also while the view is
    stale. *)
Theorem rendered_keys_descending acts w :
  world_wf w ->
  StronglySorted newer (tasks (app w)) ->
  StronglySorted (fun a b => b < a) (map Item.key (render (app (run acts w))))
  /\ NoDup (map Item.key (render (app (run acts w)))).
Proof.
  intros Hwf Hs.
  assert (StronglySorted (fun a b => b < a) (map Item.key (render (app (run acts w)))))
    as Hkeys.
  { unfold render. rewrite map_map. simpl.
    apply (StronglySorted_fmap Task.id newer); [done|].
    by apply run_view_sorted. }
  split; [done|]. by apply descending_NoDup.
Qed.

(** ** Creating, again *)

Lemma upload_if_chosen_stored chosen folder w url evs w' :
  upload_if_chosen chosen folder w = (url, evs, w') ->
  (forall b p f u, In (EvUpload b p f u (Ok tt)) evs ->
     String.prefix (folder +:+ "/") p = true /\ stored_at (remote w') p f)
  /\ (forall q g, stored_at (remote w) q g ->
        String.prefix (folder +:+ "/") q = false -> stored_at (remote w') q g).
Proof.
  destruct chosen as [file|]; simpl.
  2: { intros [= <- <- <-]. split; [by intros ? ? ? ? []|done]. }
  intros Hrun.
  destruct (uploadFile_inv _ _ _ _ _ _ Hrun)
    as (? & rep & rest & _ & -> & Hrest & _ & _ & _ & Hstored & Hkept & _).
  split.
  - intros b p f u [[= <- <- <- <- ->]|Hin].
    + split; [apply file_path_prefix|].
      destruct (Hstored eq_refl) as (objects & Hb & Hb').
      eexists. rewrite Hb', lookup_insert_eq. split; [done|]. apply lookup_insert_eq.
    + rewrite Forall_forall in Hrest. apply list_elem_of_In, Hrest in Hin. by destruct Hin.
  - intros q g (objects & Hb & Hq) Hpre.
    destruct rep as [[]|m|e].
    2,3: exists objects; by rewrite Hkept.
    destruct (Hstored eq_refl) as (objects0 & Hb0 & Hb').
    rewrite Hb in Hb0. injection Hb0 as <-.
    eexists. rewrite Hb', lookup_insert_eq. split; [done|].
    rewrite lookup_insert_ne; [done|].
    intros <-. by rewrite file_path_prefix in Hpre.
Qed.

Lemma prefix_first a s c q :
  String.prefix (String a s) (String c q) = true -> a = c.
Proof.
  change (String.prefix (String a s) (String c q))
    with (if Ascii.ascii_dec a c then String.prefix s q else false).
  by destruct (Ascii.ascii_dec a c).
Qed.

Lemma prefix_images_videos q :
  String.prefix ("images" +:+ "/") q = true -> String.prefix ("videos" +:+ "/") q = false.
Proof.
  change ("images" +:+ "/") with "images/". change ("videos" +:+ "/") with "videos/".
  destruct q as [|c q]; [done|]. intros Hi.
  destruct (String.prefix "videos/" (String c q)) eqn:Hv; [|done].
  apply prefix_first in Hi, Hv. congruence.
Qed.

(** X10: when the insert of [createTask] is refused or throws, the form and
    the local view stay as they were (the form is cleared only on success),
    the table is unchanged and no refresh is issued; a refusal is logged.
    The attachments uploaded before the insert are not taken back: every
    accepted upload of that call is still stored at its path. *)
Theorem createTask_insert_refused w r evs w' rows rep :
  createTask w = (r, evs, w') ->
  In (EvInsert rows rep) evs ->
  rep <> Ok tt ->
  app w' = app w
  /\ table (remote w') = table (remote w)
  /\ ~ Exists is_select evs
  /\ (forall m, rep = Err m ->
        r = Returned tt /\ In (EvConsole ErrorLevel ["❌ Insert error:"; m]) evs)
  /\ (forall e, rep = Exn e -> r = Threw e)
  /\ (forall b p f u, In (EvUpload b p f u (Ok tt)) evs -> stored_at (remote w') p f).
Proof.
  intros Hrun Hin Hne.
  destruct (createTask_inv _ _ _ _ Hrun)
    as (imageUrl & evs1 & w1 & videoUrl & evs2 & w2 & rep0 & rest
        & Hrun1 & Hrun2 & -> & Hres & Huniq).
  destruct (Huniq _ _ Hin) as [_ ->].
  pose proof (upload_if_chosen_events _ _ _ _ _ _ Hrun1) as He1.
  pose proof (upload_if_chosen_events _ _ _ _ _ _ Hrun2) as He2.
  destruct (upload_if_chosen_stored _ _ _ _ _ _ Hrun1) as [Hst1 _].
  destruct (upload_if_chosen_stored _ _ _ _ _ _ Hrun2) as [Hst2 Hkeep2].
  apply upload_if_chosen_frame in Hrun1 as (_ & _ & Htab1 & _).
  apply upload_if_chosen_frame in Hrun2 as (_ & _ & Htab2 & _).
  assert (app w' = app w /\ remote w' = remote w2
          /\ (forall e, In e rest -> is_console e)
          /\ (forall m, rep0 = Err m ->
                r = Returned tt /\ In (EvConsole ErrorLevel ["❌ Insert error:"; m]) rest)
          /\ (forall e, rep0 = Exn e -> r = Threw e))
    as (Happ & Hrem & Hrest & Herr & Hexn).
  { destruct rep0 as [[]|m|e]; [done| |]; simpl in Hres.
    - destruct Hres as (-> & -> & Happ & Hrem & _).
      split; [done|]. split; [done|]. split; [by intros e [<-|[]]|].
      split; [|done]. intros m1 [= ->]. split; [done|by left].
    - destruct Hres as (-> & -> & Happ & Hrem & _).
      split; [done|]. split; [done|]. split; [by intros e0 []|].
      split; [done|]. by intros e1 [= ->]. }
  split; [done|]. split; [by rewrite Hrem, Htab2, Htab1|]. split.
  { rewrite !Exists_app, Exists_cons. intros [Hex|[Hex|[[]|Hex]]].
    - apply Exists_exists in Hex as (e & He & Hsel). rewrite Forall_forall in He1.
      specialize (He1 _ He). by destruct e.
    - apply Exists_exists in Hex as (e & He & Hsel). rewrite Forall_forall in He2.
      specialize (He2 _ He). by destruct e.
    - apply Exists_exists in Hex as (e & He & Hsel).
      apply list_elem_of_In, Hrest in He. by destruct e. }
  split.
  { intros m Hm. destruct (Herr m Hm) as [-> Hlog]. split; [done|].
    rewrite !in_app_iff. right. right. by right. }
  split; [done|].
  intros b p f u. rewrite !in_app_iff. rewrite Hrem.
  intros [Hup|[Hup|[Hup|Hup]]].
  - destruct (Hst1 _ _ _ _ Hup) as [Hpre Hstored].
    apply Hkeep2; [done|]. by apply prefix_images_videos.
  - by destruct (Hst2 _ _ _ _ Hup).
  - discriminate.
  - by apply Hrest in Hup.
Qed.

Lemma upload_if_chosen_some chosen folder w u evs w' :
  upload_if_chosen chosen folder w = (Returned (Some u), evs, w') ->
  u <> ""
  /\ exists file,
       chosen = Some file
       /\ In (EvUpload bucket_name (file_path folder (now_of w) file) file true (Ok tt)) evs
       /\ In (EvGetPublicUrl bucket_name (file_path folder (now_of w) file) (Ok u)) evs.
Proof.
  destruct chosen as [file|]; simpl; [|discriminate].
  intros Hrun.
  destruct (uploadFile_run file folder w)
    as (url & rep & rest & w0 & Hrun0 & _ & _ & _ & _ & _ & _ & _ & _ & Hok & _).
  rewrite Hrun in Hrun0. injection Hrun0 as <- -> <-.
  destruct (Hok u eq_refl) as (-> & Hne & _ & Hin).
  split; [done|]. exists file. split; [done|]. split; [by left|by right].
Qed.

(** X11: a reference that [createTask] puts in the row it inserts is never
    the empty string: it is null, or the URL the storage service gave back
    for the file held in state, after an accepted upload of that file under
    the folder of its category ([images/] or [videos/]).  So the guard of the
    rendered list hides an image or a video only for a null reference. *)
Theorem createTask_references_resolved w r evs w' rows rep row :
  createTask w = (r, evs, w') ->
  In (EvInsert rows rep) evs ->
  In row rows ->
  (forall u, Row.image_url row = Some u ->
     u <> ""
     /\ exists file p,
          taskImage (app w) = Some file /\ String.prefix "images/" p = true
          /\ In (EvUpload "notes-images" p file true (Ok tt)) evs
          /\ In (EvGetPublicUrl "notes-images" p (Ok u)) evs)
  /\ (forall u, Row.video_url row = Some u ->
        u <> ""
        /\ exists file p,
             taskVideo (app w) = Some file /\ String.prefix "videos/" p = true
             /\ In (EvUpload "notes-images" p file true (Ok tt)) evs
             /\ In (EvGetPublicUrl "notes-images" p (Ok u)) evs)
  /\ truthy (Row.image_url row) = Row.image_url row
  /\ truthy (Row.video_url row) = Row.video_url row.
Proof.
  intros Hrun Hin Hrow.
  destruct (createTask_inv _ _ _ _ Hrun)
    as (imageUrl & evs1 & w1 & videoUrl & evs2 & w2 & rep0 & rest
        & Hrun1 & Hrun2 & -> & _ & Huniq).
  destruct (Huniq _ _ Hin) as [-> _]. destruct Hrow as [<-|[]]. simpl.
  split; [|split; [|split]].
  3: { destruct imageUrl as [u|]; [|done]. simpl.
       destruct (upload_if_chosen_some _ _ _ _ _ _ Hrun1) as [Hne _].
       by rewrite decide_False. }
  3: { destruct videoUrl as [u|]; [|done]. simpl.
       destruct (upload_if_chosen_some _ _ _ _ _ _ Hrun2) as [Hne _].
       by rewrite decide_False. }
  - intros u ->. destruct (upload_if_chosen_some _ _ _ _ _ _ Hrun1)
      as (Hne & file & Hfile & Hup & Hget).
    split; [done|]. exists file, (file_path "images" (now_of w) file).
    split; [done|]. split; [apply (file_path_prefix "images")|].
    rewrite !in_app_iff. split; by left.
  - intros u ->. destruct (upload_if_chosen_some _ _ _ _ _ _ Hrun2)
      as (Hne & file & Hfile & Hup & Hget).
    split; [done|]. exists file, (file_path "videos" (now_of w1) file).
    split; [done|]. split; [apply (file_path_prefix "videos")|].
    rewrite !in_app_iff. split; right; by left.
Qed.

(** ** The form, again *)

Lemma form_valid_inv w :
  form_valid w = true ->
  NewTask.title (newTask (app w)) <> ""
  /\ NewTask.description (newTask (app w)) <> ""
  /\ image_input (dom w) <> [] /\ video_input (dom w) <> [].
Proof.
  unfold form_valid. rewrite !andb_true_iff, !negb_true_iff.
  intros [[[Ht Hd] Hi] Hv].
  apply String.eqb_neq in Ht, Hd. apply bool_decide_eq_false in Hi, Hv. done.
Qed.

Lemma form_valid_intro w :
  NewTask.title (newTask (app w)) <> "" ->
  NewTask.description (newTask (app w)) <> "" ->
  image_input (dom w) <> [] -> video_input (dom w) <> [] ->
  form_valid w = true.
Proof.
  intros Ht Hd Hi Hv. unfold form_valid.
  rewrite !andb_true_iff, !negb_true_iff.
  repeat split; first [by apply String.eqb_neq|by apply bool_decide_eq_false].
Qed.

(** X12: after a submission that stored a task, the files held in state are
    dropped but the two file inputs keep theirs, so the form is still valid
    once a new title and description are typed: the next submission goes
    through, sends nothing to storage and inserts a row with null
    references. *)
Theorem resubmission_sends_no_file w r evs w' rows title description r2 evs2 w2 :
  form_submit w = (r, evs, w') ->
  In (EvInsert rows (Ok tt)) evs ->
  title <> "" -> description <> "" ->
  form_submit (retyped title description w') = (r2, evs2, w2) ->
  ~ Exists is_storage evs2
  /\ exists rep, In (EvInsert [Row.mk title description None None] rep) evs2.
Proof.
  intros Hrun Hin Htitle Hdesc Hrun2.
  unfold form_submit in Hrun. destruct (form_valid w) eqn:Hvalid.
  2: { injection Hrun as <- <- <-. destruct Hin. }
  apply form_valid_inv in Hvalid as (_ & _ & Himg & Hvid).
  destruct (createTask_inv _ _ _ _ Hrun)
    as (imageUrl & evs1 & w1 & videoUrl & evs02 & w02 & rep & rest
        & _ & _ & -> & Hres & Huniq).
  destruct (Huniq _ _ Hin) as [_ <-].
  pose proof (create_result_rest _ _ _ _ _ _ _ Hres) as (_ & Hdom & _).
  simpl in Hres. destruct Hres as (w3 & evs3 & _ & _ & Happ3 & Hfl & _).
  apply floating_fetchTasks_inv in Hfl as (_ & r0 & Hfl).
  destruct (fetchTasks_inv _ _ _ _ Hfl) as (rep3 & rest3 & _ & _ & _ & Hres3 & _).
  assert (taskImage (app w') = None /\ taskVideo (app w') = None) as [Hi Hv].
  { destruct rep3; simpl in Hres3.
    - destruct Hres3 as (_ & _ & _ & ->). by rewrite Happ3.
    - destruct Hres3 as (_ & _ & ->). by rewrite Happ3.
    - destruct Hres3 as (_ & _ & ->). by rewrite Happ3. }
  set (w4 := retyped title description w') in *.
  assert (app w4 = mkApp (tasks (app w')) (NewTask.mk title description)
                     (newDescription (app w')) None None /\ dom w4 = dom w)
    as [Happ4 Hdom4].
  { unfold w4, retyped. simpl. rewrite Hi, Hv. by rewrite Hdom. }
  unfold form_submit in Hrun2. rewrite form_valid_intro in Hrun2.
  2-5: rewrite ?Happ4, ?Hdom4; done.
  destruct (createTask_inv _ _ _ _ Hrun2)
    as (imageUrl4 & evs41 & w41 & videoUrl4 & evs42 & w42 & rep4 & rest4
        & Hrun41 & Hrun42 & -> & Hres4 & _).
  rewrite Happ4 in Hrun41, Hrun42. simpl in Hrun41, Hrun42.
  injection Hrun41 as <- <- <-. injection Hrun42 as <- <- <-.
  apply create_result_rest in Hres4 as (Hrest4 & _).
  split.
  - simpl. intros Hex. apply Exists_cons in Hex as [[]|Hex].
    apply Exists_exists in Hex as (e & He & Hst).
    rewrite Forall_forall in Hrest4. by apply (Hrest4 _ He).
  - exists rep4. left. unfold submitted_row. by rewrite Happ4.
Qed.

(** ** Loading the page *)

(** X13: mounting the page never throws and always sends the sign-in request
    and then the initial select, whatever the reply to the sign-in (accepted,
    refused or crashed): a failed sign-in is at most logged and the first
    load goes on without a session.  The store is not changed, and when the
    select brings rows back they become the local view. *)
Theorem mount_loads_whatever_sign_in_does w :
  exists rep1 mid rep2 rest w',
    perform Mount w = (Returned tt, EvSignIn rep1 :: mid ++ EvSelect rep2 :: rest, w')
    /\ Forall is_console mid /\ Forall is_console rest
    /\ remote w' = remote w
    /\ (forall rows, rep2 = Ok rows ->
          tasks (app w') = rows /\ rows = order_by_id_desc (table (remote w))).
Proof.
  unfold perform, bind, floating, init, fetchTasks, bind, auth_signInAnonymously,
    from_tasks_select_order_id_desc, request, tasks_select, console_error,
    console_log, emit, setTasks, modify_app.
  destruct (faults (env w)) as [|[[?|?]|] [|[[?|?]|] ?]]; simpl.
  all: eexists;
    first [ exists []; do 3 eexists; split; [reflexivity|]
          | eexists [_]; do 3 eexists; split; [reflexivity|] ].
  all: simpl; repeat split; try done; repeat constructor.
  all: congruence.
Qed.

(** ** Before the files are chosen *)

Lemma perform_dom a w :
  dom (perform a w).2
  = match a with
    | ChooseImage files => mkDom files (video_input (dom w))
    | ChooseVideo files => mkDom (image_input (dom w)) files
    | _ => dom w
    end.
Proof.
  destruct a; simpl; try done.
  - unfold bind. destruct (init_frame w) as (_ & _ & Hdom).
    destruct (floating init w) as [[[] evs1] w1]; simpl in *; [|done].
    destruct (floating_handled fetchTasks fetchTasks_handled w1) as [_ Hdom1].
    destruct (floating fetchTasks w1) as [[r2 evs2] w2]; simpl in *. congruence.
  - by destruct files.
  - by destruct files.
  - apply floating_handled, form_submit_handled.
  - apply floating_handled. intros ? ? ? ?. apply updateTask_handled.
  - apply floating_handled. intros ? ? ? ?. apply deleteTask_handled.
  - apply floating_handled, fetchTasks_handled.
Qed.

Lemma refresh_no_insert w r evs w' :
  floating fetchTasks w = (r, evs, w') -> ~ Exists is_insert evs.
Proof.
  intros Hfl Hex. apply floating_fetchTasks_events in Hfl as [Hfl _].
  apply Exists_exists in Hex as (e & He & Hins).
  rewrite Forall_forall in Hfl. destruct (Hfl _ He); by destruct e.
Qed.

(** Only a submission can make the page send an insert. *)
Lemma perform_no_insert a w :
  a <> Submit -> ~ Exists is_insert (perform a w).1.2.
Proof.
  intros Hne. destruct a; simpl; try done; try (by intros Hex%Exists_nil).
  - unfold bind, floating, init, fetchTasks, bind, auth_signInAnonymously,
      from_tasks_select_order_id_desc, request, tasks_select, console_error,
      console_log, emit, setTasks, modify_app.
    destruct (faults (env w)) as [|[[?|?]|] [|[[?|?]|] ?]]; simpl.
    all: rewrite ?Exists_cons, Exists_nil; simpl; tauto.
  - destruct files; by intros Hex%Exists_nil.
  - destruct files; by intros Hex%Exists_nil.
  - unfold floating. destruct (updateTask id w) as [[r evs] w'] eqn:Hrun. simpl.
    destruct (updateTask_inv _ _ _ _ _ Hrun) as (rep & rest & -> & Hres & _).
    intros Hex. apply Exists_cons in Hex as [[]|Hex].
    destruct rep as [[]|m|e]; simpl in Hres.
    + destruct Hres as (w3 & evs3 & _ & _ & _ & Hfl & ->).
      apply Exists_cons in Hex as [[]|Hex]. by eapply refresh_no_insert.
    + destruct Hres as (_ & -> & _). apply Exists_cons in Hex as [[]|Hex].
      by apply Exists_nil in Hex.
    + destruct Hres as (_ & -> & _). by apply Exists_nil in Hex.
  - unfold floating. destruct (deleteTask confirmed id w) as [[r evs] w'] eqn:Hrun.
    simpl. destruct confirmed.
    2: { rewrite deleteTask_declined in Hrun. injection Hrun as <- <- <-.
         by intros Hex%Exists_nil. }
    destruct (deleteTask_inv _ _ _ _ _ Hrun) as (rep & rest & -> & Hres & _).
    intros Hex. apply Exists_cons in Hex as [[]|Hex].
    destruct rep as [[]|m|e]; simpl in Hres.
    + destruct Hres as (w3 & evs3 & _ & _ & _ & Hfl & ->).
      apply Exists_cons in Hex as [[]|Hex]. by eapply refresh_no_insert.
    + destruct Hres as (_ & -> & _). apply Exists_cons in Hex as [[]|Hex].
      by apply Exists_nil in Hex.
    + destruct Hres as (_ & -> & _). by apply Exists_nil in Hex.
  - destruct (floating fetchTasks w) as [[r evs] w'] eqn:Hrun. simpl.
    by eapply refresh_no_insert.
Qed.

Lemma blocked_submit_silent w :
  image_input (dom w) = [] \/ video_input (dom w) = [] ->
  (perform Submit w).1.2 = [].
Proof.
  intros Hempty. simpl. unfold floating, form_submit.
  assert (form_valid w = false) as ->; [|done].
  unfold form_valid. destruct Hempty as [-> | ->]; simpl.
  - by rewrite andb_false_r.
  - by rewrite andb_false_r.
Qed.

(** X14: both file inputs of the form are required.  As long as no image
    has been put in the image input, or no video in the video input, the
    page never sends an insert, whatever is typed, clicked or submitted. *)
Theorem no_insert_before_files_chosen acts w :
  (image_input (dom w) = [] /\ Forall (fun a => ~ chooses_image a) acts)
  \/ (video_input (dom w) = [] /\ Forall (fun a => ~ chooses_video a) acts) ->
  ~ Exists is_insert (run_events acts w).
Proof.
  revert w. induction acts as [|a acts IH]; intros w Hcase; simpl.
  { by intros Hex%Exists_nil. }
  rewrite Exists_app. intros [Hex|Hex].
  - assert (a = Submit \/ a <> Submit) as [->|Hne] by (destruct a; (by left) || (by right)).
    + rewrite blocked_submit_silent in Hex; [by apply Exists_nil in Hex|].
      destruct Hcase as [[? _]|[? _]]; [by left|by right].
    + by apply (perform_no_insert a w).
  - apply (IH (perform a w).2); [|done].
    rewrite perform_dom.
    destruct Hcase as [[Hempty Hall]|[Hempty Hall]];
      apply Forall_cons in Hall as [Ha Hall]; [left|right]; (split; [|done]).
    + destruct a as [| | | |[|f fs]| | | | | | | |]; simpl in *; tauto.
    + destruct a as [| | | | |[|f fs]| | | | | | |]; simpl in *; tauto.
Qed.

(** ** The files that get uploaded *)

Lemma upload_if_chosen_uploads chosen folder w url evs w' :
  upload_if_chosen chosen folder w = (url, evs, w') ->
  match chosen with
  | None => evs = []
  | Some file =>
      exists rep rest,
        evs = EvUpload bucket_name (file_path folder (now_of w) file) file true rep :: rest
        /\ Forall (fun e => ~ is_upload e) rest
  end.
Proof.
  destruct chosen as [file|]; simpl.
  - intros Hrun.
    destruct (uploadFile_inv _ _ _ _ _ _ Hrun) as (? & rep & rest & _ & -> & Hrest & _).
    by exists rep, rest.
  - by intros [= <- <- <-].
Qed.

(** The upload events of a run of [createTask]: at most one for the image,
    under [images/], and at most one for the video, under [videos/]. *)
Lemma createTask_upload_events w r evs w' :
  createTask w = (r, evs, w') ->
  exists w1 (up1 up2 : option (Reply unit)),
    forall e, is_upload e ->
      In e evs <->
      (exists f rep,
          taskImage (app w) = Some f /\ up1 = Some rep
          /\ e = EvUpload bucket_name (file_path "images" (now_of w) f) f true rep)
      \/ (exists f rep,
            taskVideo (app w) = Some f /\ up2 = Some rep
            /\ e = EvUpload bucket_name (file_path "videos" (now_of w1) f) f true rep).
Proof.
  intros Hrun.
  destruct (createTask_inv _ _ _ _ Hrun)
    as (imageUrl & evs1 & w1 & videoUrl & evs2 & w2 & rep0 & rest
        & Hrun1 & Hrun2 & -> & Hres & _).
  apply create_result_rest in Hres as (Hrest & _).
  apply upload_if_chosen_uploads in Hrun1, Hrun2.
  assert (forall e, is_upload e ->
            ~ In e (EvInsert [submitted_row (app w) imageUrl videoUrl] rep0 :: rest))
    as Htail.
  { intros e He [<-|Hin]; [done|]. rewrite Forall_forall in Hrest.
    apply list_elem_of_In, Hrest in Hin. by destruct e. }
  assert (exists up1, forall e, is_upload e ->
            In e evs1 <->
            exists f rep, taskImage (app w) = Some f /\ up1 = Some rep
              /\ e = EvUpload bucket_name (file_path "images" (now_of w) f) f true rep)
    as [up1 Hup1].
  { destruct (taskImage (app w)) as [f|].
    - destruct Hrun1 as (rep & rest1 & -> & Hrest1). exists (Some rep).
      intros e He. split.
      + intros [<-|Hin]; [by exists f, rep|].
        rewrite Forall_forall in Hrest1. by apply list_elem_of_In, Hrest1 in Hin.
      + intros (? & ? & [= <-] & [= <-] & ->). by left.
    - rewrite Hrun1. exists None. intros e He. split; [done|].
      by intros (? & ? & ? & _). }
  assert (exists up2, forall e, is_upload e ->
            In e evs2 <->
            exists f rep, taskVideo (app w) = Some f /\ up2 = Some rep
              /\ e = EvUpload bucket_name (file_path "videos" (now_of w1) f) f true rep)
    as [up2 Hup2].
  { destruct (taskVideo (app w)) as [f|].
    - destruct Hrun2 as (rep & rest2 & -> & Hrest2). exists (Some rep).
      intros e He. split.
      + intros [<-|Hin]; [by exists f, rep|].
        rewrite Forall_forall in Hrest2. by apply list_elem_of_In, Hrest2 in Hin.
      + intros (? & ? & [= <-] & [= <-] & ->). by left.
    - rewrite Hrun2. exists None. intros e He. split; [done|].
      by intros (? & ? & ? & _). }
  exists w1, up1, up2. intros e He. rewrite !in_app_iff.
  rewrite (Hup1 e He), (Hup2 e He). specialize (Htail e He). tauto.
Qed.

(** X15: of the files selected in the image input only the first is kept,
    and it is the one a following [createTask] uploads under [images/]: no
    other file of the selection is ever sent. *)
Theorem chosen_image_is_the_one_uploaded f fs w r evs w' :
  createTask (perform (ChooseImage (f :: fs)) w).2 = (r, evs, w') ->
  (exists p rep,
      String.prefix "images/" p = true
      /\ In (EvUpload "notes-images" p f true rep) evs)
  /\ (forall b p g u rep,
        In (EvUpload b p g u rep) evs -> String.prefix "images/" p = true -> g = f).
Proof.
  intros Hrun.
  set (w0 := (perform (ChooseImage (f :: fs)) w).2) in *.
  assert (taskImage (app w0) = Some f) as Himg by reflexivity.
  destruct (createTask_upload_events _ _ _ _ Hrun) as (w1 & up1 & up2 & Hups).
  pose proof (createTask_inv _ _ _ _ Hrun)
    as (imageUrl & evs1 & w1' & videoUrl & evs2 & w2 & rep0 & rest
        & Hrun1 & _ & Hevs & _).
  rewrite Himg in Hrun1. simpl in Hrun1.
  destruct (uploadFile_inv _ _ _ _ _ _ Hrun1) as (? & rep & rest1 & _ & Hevs1 & _).
  split.
  - exists (file_path "images" (now_of w0) f), rep.
    split; [apply (file_path_prefix "images")|].
    rewrite Hevs, Hevs1. by left.
  - intros b p g u rep' Hin Hpre.
    apply (Hups (EvUpload b p g u rep') I) in Hin
      as [(f1 & ? & Hf1 & _ & [= _ _ -> _ _])|(f2 & ? & _ & _ & [= _ -> _ _ _])].
    + congruence.
    + by rewrite file_path_videos_not_images in Hpre.
Qed.

(** X16: within one [createTask] the image and the video never share an
    object path, even with the same file name and timestamp: two upload
    requests of the same call that name the same path are one and the same
    request. *)
Theorem createTask_uploads_do_not_collide w r evs w' b1 p g1 u1 rep1 b2 g2 u2 rep2 :
  createTask w = (r, evs, w') ->
  In (EvUpload b1 p g1 u1 rep1) evs ->
  In (EvUpload b2 p g2 u2 rep2) evs ->
  EvUpload b1 p g1 u1 rep1 = EvUpload b2 p g2 u2 rep2.
Proof.
  intros Hrun Hin1 Hin2.
  destruct (createTask_upload_events _ _ _ _ Hrun) as (w1 & up1 & up2 & Hups).
  apply (Hups (EvUpload b1 p g1 u1 rep1) I) in Hin1
    as [(f1 & r1 & Hf1 & Hr1 & Heq1)|(f1 & r1 & Hf1 & Hr1 & Heq1)];
  apply (Hups (EvUpload b2 p g2 u2 rep2) I) in Hin2
    as [(f2 & r2 & Hf2 & Hr2 & Heq2)|(f2 & r2 & Hf2 & Hr2 & Heq2)].
  - rewrite Heq1, Heq2. congruence.
  - exfalso. injection Heq1 as _ Hp1 _ _ _. injection Heq2 as _ Hp2 _ _ _.
    pose proof (file_path_prefix "videos" (now_of w1) f2) as Hpre.
    rewrite <- Hp2, Hp1 in Hpre. by rewrite file_path_images_not_videos in Hpre.
  - exfalso. injection Heq1 as _ Hp1 _ _ _. injection Heq2 as _ Hp2 _ _ _.
    pose proof (file_path_prefix "videos" (now_of w1) f1) as Hpre.
    rewrite <- Hp1, Hp2 in Hpre. by rewrite file_path_images_not_videos in Hpre.
  - rewrite Heq1, Heq2. congruence.
Qed.

(** ** Deleting what is not there *)




(** ** Updating with an empty edit box *)

(** X18: [updateTask] sends whatever the shared edit box holds, also nothing.
    An accepted update empties the edit box, so a second click on Update, on
    any task, right after it blanks the description of that task. *)
Theorem second_update_blanks_description i j w r evs w' r2 evs2 w'' t :
  updateTask i w = (r, evs, w') ->
  In (EvUpdate i (newDescription (app w)) (Ok tt)) evs ->
  hd None (faults (env w')) = None ->
  updateTask j w' = (r2, evs2, w'') ->
  t ∈ table (remote w') ->
  Task.id t = j ->
  In (EvUpdate j "" (Ok tt)) evs2
  /\ set_description "" t ∈ table (remote w'').
Proof.
  intros Hrun Hin Hfault Hrun2 Ht Hid.
  destruct (updateTask_inv _ _ _ _ _ Hrun) as (rep & rest & _ & Hres & _ & Huniq).
  rewrite <- (Huniq _ _ _ Hin) in Hres. simpl in Hres.
  destruct Hres as (w3 & evs3 & _ & _ & Happ3 & Hfl & _).
  apply floating_fetchTasks_inv in Hfl as (_ & r0 & Hfl).
  destruct (fetchTasks_inv _ _ _ _ Hfl) as (rep3 & rest3 & _ & _ & _ & Hres3 & _).
  assert (newDescription (app w') = "") as Hempty.
  { destruct rep3; simpl in Hres3.
    - destruct Hres3 as (_ & _ & _ & ->). by rewrite Happ3.
    - destruct Hres3 as (_ & _ & ->). by rewrite Happ3.
    - destruct Hres3 as (_ & _ & ->). by rewrite Happ3. }
  destruct (updateTask_inv _ _ _ _ _ Hrun2) as (rep2 & rest2 & -> & Hres2 & Hreach & _).
  apply Hreach in Hfault as ->. rewrite Hempty in *. simpl in Hres2.
  destruct Hres2 as (w4 & evs4 & Hrem4 & _ & _ & Hfl4 & _).
  apply floating_fetchTasks_inv in Hfl4 as (_ & r4 & Hfl4).
  destruct (fetchTasks_inv _ _ _ _ Hfl4) as (? & ? & _ & Hrem'' & _).
  split; [by left|].
  rewrite Hrem'', Hrem4. simpl.
  apply list_elem_of_In, in_map_iff. exists t. split; [|by apply list_elem_of_In].
  rewrite Hempty. destruct (Z.eqb_spec (Task.id t) j); [done|congruence].
Qed.

(** ** The attachment bucket *)

(** An accepted upload is followed by the request for the public location of
    the same object. *)
Lemma uploadFile_resolves file folder w :
  exists url rep rest w',
    uploadFile file folder w
      = (Returned url,
         EvUpload bucket_name (file_path folder (now_of w) file) file true rep :: rest,
         w')
    /\ (rep = Ok tt ->
          exists rep2,
            In (EvGetPublicUrl bucket_name (file_path folder (now_of w) file) rep2) rest).
Proof.
  upload_cases w.
  all: do 4 eexists; (split; [reflexivity|]); simpl.
  all: intros Hrep; try discriminate Hrep.
  all: eexists; left; reflexivity.
Qed.

(** C10: every call of [uploadFile], whatever the folder, sends its upload
    to the bucket "notes-images", at the path [folder/<Date.now()>-<name>]:
    the folder is only the prefix of the path.  When the upload is accepted
    the file is stored in that bucket at that path and the public location
    is asked of the same bucket for the same path; a returned URL is the
    location of that object in "notes-images".  Every storage request names
    that bucket and no other bucket changes.  So [createTask] sends the
    chosen image under [images/] and the chosen video under [videos/], both
    to "notes-images", where every accepted upload ends up stored. *)
Theorem attachments_use_single_bucket :
  (forall file folder w r evs w',
      uploadFile file folder w = (r, evs, w') ->
      (exists rep rest,
          evs = EvUpload "notes-images"
                  (folder +:+ "/" +:+ pretty (now_of w) +:+ "-" +:+ name file)
                  file true rep :: rest
          /\ (rep = Ok tt ->
                (exists objects,
                    buckets (remote w') !! "notes-images" = Some objects
                    /\ objects !! (folder +:+ "/" +:+ pretty (now_of w) +:+ "-" +:+ name file)
                       = Some file)
                /\ exists rep2,
                     In (EvGetPublicUrl "notes-images"
                           (folder +:+ "/" +:+ pretty (now_of w) +:+ "-" +:+ name file)
                           rep2) rest))
      /\ (hd None (faults (env w)) = None ->
            is_Some (buckets (remote w) !! "notes-images") ->
            In (EvUpload "notes-images"
                  (folder +:+ "/" +:+ pretty (now_of w) +:+ "-" +:+ name file)
                  file true (Ok tt)) evs)
      /\ (forall u, r = Returned (Some u) ->
            u = public_url (remote w') "notes-images"
                  (folder +:+ "/" +:+ pretty (now_of w) +:+ "-" +:+ name file))
      /\ Forall (fun e =>
                   match e with
                   | EvUpload b p _ _ _ | EvGetPublicUrl b p _ =>
                       b = "notes-images" /\ String.prefix (folder +:+ "/") p = true
                   | _ => True
                   end) evs
      /\ (forall b, b <> "notes-images" ->
            buckets (remote w') !! b = buckets (remote w) !! b))
  /\ (forall w r evs w',
        createTask w = (r, evs, w') ->
        Forall (fun e =>
                  match e with
                  | EvUpload b p _ _ _ | EvGetPublicUrl b p _ =>
                      b = "notes-images"
                      /\ (String.prefix "images/" p = true
                          \/ String.prefix "videos/" p = true)
                  | _ => True
                  end) evs
        /\ (forall b, b <> "notes-images" ->
              buckets (remote w') !! b = buckets (remote w) !! b)
        /\ (forall f, taskImage (app w) = Some f ->
              exists p rep,
                String.prefix "images/" p = true
                /\ In (EvUpload "notes-images" p f true rep) evs)
        /\ (forall f, taskVideo (app w) = Some f ->
              exists p rep,
                String.prefix "videos/" p = true
                /\ In (EvUpload "notes-images" p f true rep) evs)
        /\ (forall b p f u,
              In (EvUpload b p f u (Ok tt)) evs ->
              exists objects,
                buckets (remote w') !! "notes-images" = Some objects
                /\ objects !! p = Some f)).
Proof.
  split.
  - intros file folder w r evs w' Hrun.
    destruct (uploadFile_inv _ _ _ _ _ _ Hrun)
      as (url & rep & rest & -> & -> & _ & Hurl & _ & Hb & Hstored & _ & Hreach & Hok).
    destruct (uploadFile_resolves file folder w)
      as (url1 & rep1 & rest1 & w1 & Hrun1 & Hget).
    rewrite Hrun in Hrun1. injection Hrun1 as <- <- <- <-.
    destruct (uploadFile_run file folder w)
      as (url2 & rep2 & rest2 & w2 & Hrun2 & _ & _ & _ & _ & _ & _ & Hrest & _).
    rewrite Hrun in Hrun2. injection Hrun2 as <- <- <- <-.
    split; [|split; [|split; [|split]]].
    + exists rep, rest. split; [done|]. intros Hrep. split; [|by apply Hget].
      destruct (Hstored Hrep) as (objects & Hlook & Hb').
      exists (<[file_path folder (now_of w) file := file]> objects).
      rewrite Hb'. split; apply lookup_insert_eq.
    + intros Hfault Hbucket. rewrite (Hreach Hfault Hbucket). by left.
    + intros u [= ->]. destruct (Hok u eq_refl) as (_ & _ & ->).
      by apply public_url_project.
    + constructor; [split; [done|apply file_path_prefix]|].
      eapply Forall_impl; [exact Hrest|]. intros e [_ He].
      destruct e; simpl in *; try done.
      * destruct He as [-> ->]. split; [done|apply file_path_prefix].
      * destruct He as [-> ->]. split; [done|apply file_path_prefix].
    + exact Hb.
  - intros w r evs w' Hrun.
    destruct (createTask_inv _ _ _ _ Hrun)
      as (imageUrl & evs1 & w1 & videoUrl & evs2 & w2 & rep & rest
          & Hrun1 & Hrun2 & -> & Hres & _).
    destruct (upload_if_chosen_run (taskImage (app w)) "images" w)
      as (? & ? & ? & Heq1 & _ & _ & _ & _ & _ & Hb1 & Hev1 & _).
    rewrite Hrun1 in Heq1. injection Heq1 as <- <- <-.
    destruct (upload_if_chosen_run (taskVideo (app w)) "videos" w1)
      as (? & ? & ? & Heq2 & _ & _ & _ & _ & _ & Hb2 & Hev2 & _).
    rewrite Hrun2 in Heq2. injection Heq2 as <- <- <-.
    destruct (upload_if_chosen_stored _ _ _ _ _ _ Hrun1) as [Hst1 _].
    destruct (upload_if_chosen_stored _ _ _ _ _ _ Hrun2) as [Hst2 Hkeep2].
    pose proof (upload_if_chosen_uploads _ _ _ _ _ _ Hrun1) as Hup1.
    pose proof (upload_if_chosen_uploads _ _ _ _ _ _ Hrun2) as Hup2.
    apply create_result_rest in Hres as (Hrest & _ & Hbuckets & _).
    split; [|split; [|split; [|split]]].
    + rewrite !Forall_app. split; [|split].
      * destruct (taskImage (app w)) as [file|]; [|destruct Hev1 as [_ ->]; constructor].
        eapply Forall_impl; [exact Hev1|]. intros e He.
        pose proof (attachment_event_folder _ _ _ _ He) as Hfold.
        destruct e; simpl in *; try done.
        -- split; [tauto|]. left. by apply Hfold.
        -- split; [tauto|]. left. by apply Hfold.
      * destruct (taskVideo (app w)) as [file|]; [|destruct Hev2 as [_ ->]; constructor].
        eapply Forall_impl; [exact Hev2|]. intros e He.
        pose proof (attachment_event_folder _ _ _ _ He) as Hfold.
        destruct e; simpl in *; try done.
        -- split; [tauto|]. right. by apply Hfold.
        -- split; [tauto|]. right. by apply Hfold.
      * constructor; [done|].
        eapply Forall_impl; [exact Hrest|]. intros e He. by destruct e.
    + intros b Hne. rewrite Hbuckets, Hb2, Hb1; done.
    + intros f Hf. rewrite Hf in Hup1. destruct Hup1 as (rep1 & rest1 & -> & _).
      exists (file_path "images" (now_of w) f), rep1.
      split; [apply (file_path_prefix "images")|]. by left.
    + intros f Hf. rewrite Hf in Hup2. destruct Hup2 as (rep2 & rest2 & -> & _).
      exists (file_path "videos" (now_of w1) f), rep2.
      split; [apply (file_path_prefix "videos")|].
      rewrite !in_app_iff. right. left. by left.
    + intros b p f u. rewrite !in_app_iff.
      unfold stored_at in Hst1, Hst2, Hkeep2. rewrite Hbuckets.
      intros [Hup|[Hup|[Hup|Hup]]].
      * destruct (Hst1 _ _ _ _ Hup) as [Hpre Hstored].
        apply Hkeep2; [done|]. by apply prefix_images_videos.
      * by destruct (Hst2 _ _ _ _ Hup).
      * discriminate.
      * rewrite Forall_forall in Hrest. apply list_elem_of_In, Hrest in Hup. by destruct Hup.
Qed.

(** * Concrete runs of the further properties *)

Lemma deleteTask_then_refresh_witness :
  table (remote (deleteTask true 1 example_world).2)
  = [Task.mk 2 "Call home" "" (Some "https://cdn.example/a.png") None].
Proof.
  edestruct (deleteTask_then_refresh 1 example_world) as (Htab & _).
  - apply example_world_wf.
  - vm_compute. reflexivity.
  - left. reflexivity.
  - exact Htab.
Defined.

Lemma deleteTask_without_effect_witness :
  app (deleteTask true 1 offline_world).2 = app offline_world
  /\ remote (deleteTask true 1 offline_world).2 = remote offline_world.
Proof.
  edestruct (deleteTask_without_effect true 1 offline_world) as (Happ & Hrem & _).
  - vm_compute. reflexivity.
  - right. exists (Err "Failed to fetch"). split; [left; reflexivity|discriminate].
  - split; [exact Happ|exact Hrem].
Defined.

Lemma uploadFile_returned_url_serves_file_witness :
  exists objects,
    buckets (remote (uploadFile photo "images" example_world).2) !! "notes-images"
    = Some objects
    /\ objects !! "images/1005-cat.png" = Some photo.
Proof.
  edestruct (uploadFile_returned_url_serves_file photo "images" example_world)
    as (objects & Hb & Ho & _).
  - vm_compute. reflexivity.
  - exists objects. split; [exact Hb|exact Ho].
Defined.

Lemma uploadFile_same_name_same_time_witness :
  exists objects,
    buckets (remote (uploadFile retake "images"
                       (uploadFile photo "images" example_world).2).2) !! "notes-images"
    = Some objects
    /\ objects !! "images/1005-cat.png" = Some retake.
Proof.
  edestruct (uploadFile_same_name_same_time photo retake "images" example_world)
    as (_ & Hstored & _).
  - reflexivity.
  - vm_compute. reflexivity.
  - vm_compute. reflexivity.
  - vm_compute. reflexivity.
  - vm_compute. reflexivity.
  - exact Hstored.
Defined.

Lemma uploadFile_paths_collide_iff_witness :
  "images/1005-cat.png" = "images/1005-cat.png"
  <-> now_of example_world = now_of example_world /\ name photo = name retake.
Proof.
  eapply (uploadFile_paths_collide_iff photo retake "images" example_world example_world).
  - vm_compute. reflexivity.
  - vm_compute. reflexivity.
  - left. reflexivity.
  - left. reflexivity.
Defined.

Lemma rendered_keys_descending_witness :
  NoDup (map Item.key (render (app (run stale_view_script fresh_world)))).
Proof.
  apply (rendered_keys_descending stale_view_script fresh_world).
  - split; [split|]; simpl; constructor.
  - constructor.
Defined.

Lemma createTask_insert_refused_witness :
  app (createTask insert_refused_world).2 = app insert_refused_world
  /\ stored_at (remote (createTask insert_refused_world).2) "images/1000-cat.png" photo.
Proof.
  edestruct (createTask_insert_refused insert_refused_world)
    as (Happ & _ & _ & _ & _ & Hstored).
  - vm_compute. reflexivity.
  - do 3 right. left. reflexivity.
  - discriminate.
  - split; [exact Happ|]. eapply Hstored. left. reflexivity.
Defined.

Lemma createTask_references_resolved_witness :
  truthy (Some "https://project.example/storage/v1/object/public/notes-images/images/1005-cat.png")
  = Some "https://project.example/storage/v1/object/public/notes-images/images/1005-cat.png".
Proof.
  edestruct (createTask_references_resolved example_world) as (_ & _ & Htruthy & _).
  - vm_compute. reflexivity.
  - do 3 right. left. reflexivity.
  - left. reflexivity.
  - exact Htruthy.
Defined.

Lemma resubmission_sends_no_file_witness :
  exists rep,
    In (EvInsert [Row.mk "Call home" "tonight" None None] rep)
      (form_submit (retyped "Call home" "tonight" (form_submit filled_world).2)).1.2.
Proof.
  edestruct resubmission_sends_no_file
    with (w := filled_world) (title := "Call home") (description := "tonight")
    as (_ & rep & Hin).
  - vm_compute. reflexivity.
  - vm_compute. do 6 right. left. reflexivity.
  - discriminate.
  - discriminate.
  - vm_compute. reflexivity.
  - exists rep. exact Hin.
Defined.

Lemma no_insert_before_files_chosen_witness :
  ~ Exists is_insert (run_events no_image_script fresh_world).
Proof.
  apply (no_insert_before_files_chosen no_image_script fresh_world).
  left. split; [reflexivity|].
  repeat constructor; simpl; tauto.
Defined.

Lemma chosen_image_is_the_one_uploaded_witness :
  exists p rep,
    String.prefix "images/" p = true
    /\ In (EvUpload "notes-images" p photo true rep)
         (createTask (perform (ChooseImage [photo; clip]) no_files_world).2).1.2.
Proof.
  edestruct (chosen_image_is_the_one_uploaded photo [clip] no_files_world)
    as [(p & rep & Hpre & Hin) _].
  - vm_compute. reflexivity.
  - exists p, rep. split; [exact Hpre|exact Hin].
Defined.

Lemma createTask_uploads_do_not_collide_witness :
  EvUpload "notes-images" "images/1000-cat.png" photo true (Ok tt)
  = EvUpload "notes-images" "images/1000-cat.png" photo true (Ok tt).
Proof.
  eapply (createTask_uploads_do_not_collide filled_world).
  - vm_compute. reflexivity.
  - left. reflexivity.
  - left. reflexivity.
Defined.


Lemma second_update_blanks_description_witness :
  set_description "" (Task.mk 1 "Water plants" "daily" None None)
  ∈ table (remote (updateTask 1 (updateTask 2 example_world).2).2).
Proof.
  edestruct second_update_blanks_description
    with (i := 2) (j := 1) (w := example_world)
         (t := Task.mk 1 "Water plants" "daily" None None)
    as [_ Hin].
  - vm_compute. reflexivity.
  - left. reflexivity.
  - reflexivity.
  - vm_compute. reflexivity.
  - vm_compute. left.
  - reflexivity.
  - exact Hin.
Defined.

(** Both attachments of one task end up in "notes-images", the image under
    [images/] and the video under [videos/]. *)
Lemma attachments_use_single_bucket_witness :
  exists objects,
    buckets (remote (createTask filled_world).2) !! "notes-images" = Some objects
    /\ objects !! "images/1000-cat.png" = Some photo
    /\ objects !! "videos/1000-walk.mp4" = Some clip.
Proof.
  destruct attachments_use_single_bucket as [_ Hcreate].
  edestruct (Hcreate filled_world) as (_ & _ & _ & _ & Hstored).
  - vm_compute. reflexivity.
  - destruct (Hstored "notes-images" "images/1000-cat.png" photo true)
      as (objects & Hb & Hphoto); [left; reflexivity|].
    destruct (Hstored "notes-images" "videos/1000-walk.mp4" clip true)
      as (objects' & Hb' & Hclip); [do 3 right; left; reflexivity|].
    exists objects. split; [exact Hb|]. split; [exact Hphoto|].
    rewrite Hb in Hb'. injection Hb' as <-. exact Hclip.
Defined.
